(** * Sentry front-end views: a shallow embedding and its properties

    The development follows four view components of the repository and
    one of its scripts:

    - [Accordion] / [AccordionItem]       (accordion.tsx)
    - [SentryAppAvatar]                   (sentryAppAvatar.tsx)
    - [VitalDetailContent] and its URL-query transitions
    - [SampleTable], which joins three independently fetched slices
    - the migration renumbering script ([MigrationMeta], [find_migration],
      [find_highest_migration], the new name computed by [main])

    Components are functions from props to an element tree.  Caller-supplied
    callbacks that may have effects (the accordion's item renderers) run in a
    small state monad over the caller's world; effects a component requests
    from its environment (history pushes, analytics, page errors) are
    returned as data. *)

From Stdlib Require Import ZArith List String Ascii Lia.
From Stdlib Require Import DecimalString DecimalN DecimalPos DecimalFacts.
From stdpp Require Import base option list strings pretty gmap.

Local Open Scope Z_scope.

(** ** The translation primitive

    [t] belongs to the i18n collaborator; the source locale looks a message
    up by its own text, so the lookup is the identity on the key. *)
Definition t (key : string) : string := key.

(** ** JavaScript truthiness

    An optional boolean prop is truthy when it is present and [true]; an
    optional object (or the result of [Array.prototype.find]) is truthy when
    it is present. *)
Definition truthy (b : option bool) : bool :=
  match b with Some true => true | _ => false end.

Definition present {A} (o : option A) : bool :=
  match o with Some _ => true | None => false end.

(** ** Effectful callbacks: a state monad over the caller's world *)

Definition Render (W A : Type) : Type := W -> A * W.

Definition ret {W A} (a : A) : Render W A := fun w => (a, w).

Definition bind {W A B} (c : Render W A) (k : A -> Render W B) : Render W B :=
  fun w => let (a, w') := c w in k a w'.

Notation "'let*' x := c 'in' k" := (bind c (fun x => k))
  (at level 10, x name, c at level 100, k at level 200).

(** [items.map((item, index) => ...)]: left to right, the callback receiving
    the position. *)
Fixpoint array_map {W A B} (f : A -> nat -> Render W B) (l : list A) (index : nat)
  : Render W (list B) :=
  match l with
  | [] => ret []
  | item :: rest =>
      let* b := f item index in
      let* bs := array_map f rest (S index) in
      ret (b :: bs)
  end.

(** ** accordion.tsx *)

Module Item.
(** [interface AccordionItemContent]: two thunks returning a ReactNode. *)
Record t (W ReactNode : Type) : Type := Build {
  content : Render W ReactNode;
  header : Render W ReactNode;
}.
Arguments Build {W ReactNode} _ _.
Arguments content {W ReactNode} _.
Arguments header {W ReactNode} _.
End Item.

Module ItemProps.
(** The props [Accordion] hands to each [AccordionItem].  [H] is whatever
    calling [setExpandedIndex] amounts to for the owner of the index. *)
Record t (H ReactNode : Type) : Type := Build {
  isExpanded : bool;
  currentIndex : Z;
  key : Z;
  content : ReactNode;
  setExpandedIndex : Z -> H;
  buttonOnLeft : option bool;
  children : ReactNode;
}.
Arguments Build {H ReactNode} _ _ _ _ _ _ _.
Arguments isExpanded {H ReactNode} _.
Arguments currentIndex {H ReactNode} _.
Arguments key {H ReactNode} _.
Arguments content {H ReactNode} _.
Arguments setExpandedIndex {H ReactNode} _ _.
Arguments buttonOnLeft {H ReactNode} _.
Arguments children {H ReactNode} _.
End ItemProps.

Module Accordion.

Inductive Direction : Type := up | down.

(** [<IconChevron size="xs" direction=... />] *)
Record IconChevron : Type := { chevron_size : string; direction : Direction }.

(** [<Button icon aria-label aria-expanded size="zero" borderless onClick />] *)
Record Button (H : Type) : Type := {
  icon : IconChevron;
  aria_label : string;
  aria_expanded : bool;
  size : string;
  borderless : bool;
  onClick : H;
}.
Arguments icon {H} _.
Arguments aria_label {H} _.
Arguments aria_expanded {H} _.
Arguments size {H} _.
Arguments borderless {H} _.
Arguments onClick {H} _.

(** The value of [isExpanded && content]: [false] or the content node. *)
Inductive Child (ReactNode : Type) : Type :=
| JsFalse
| Node (n : ReactNode).
Arguments JsFalse {ReactNode}.
Arguments Node {ReactNode} _.

(** The two header rows and the two content containers. *)
Inductive HeaderRow (H ReactNode : Type) : Type :=
| ButtonLeftListItemContainer (button : Button H) (children : ReactNode)
| ListItemContainer (children : ReactNode) (button : Button H).
Arguments ButtonLeftListItemContainer {H ReactNode} _ _.
Arguments ListItemContainer {H ReactNode} _ _.

Inductive ContentRow (ReactNode : Type) : Type :=
| LeftContentContainer (child : Child ReactNode)
| StyledContentContainer (child : Child ReactNode).
Arguments LeftContentContainer {ReactNode} _.
Arguments StyledContentContainer {ReactNode} _.

Record StyledLineItem (H ReactNode : Type) : Type := {
  row : HeaderRow H ReactNode;
  body : ContentRow ReactNode;
}.
Arguments row {H ReactNode} _.
Arguments body {H ReactNode} _.

Section Components.
Context {W H ReactNode : Type}.

(** [a && b] when [a] is a boolean. *)
Definition js_and (a : bool) (b : ReactNode) : Child ReactNode :=
  if a then Node b else JsFalse.

Definition expandButton (isExpanded : bool) (setExpandedIndex : Z -> H) (index : Z)
  : Button H :=
  {| icon := {| chevron_size := "xs";
                direction := if isExpanded then up else down |};
     aria_label := t "Expand";
     aria_expanded := isExpanded;
     size := "zero";
     borderless := true;
     onClick := setExpandedIndex index |}.

Definition AccordionItem (p : ItemProps.t H ReactNode) : StyledLineItem H ReactNode :=
  let isExpanded := ItemProps.isExpanded p in
  let index := ItemProps.currentIndex p in
  let children := ItemProps.children p in
  let setExpandedIndex := ItemProps.setExpandedIndex p in
  let content := ItemProps.content p in
  if truthy (ItemProps.buttonOnLeft p) then
    {| row := ButtonLeftListItemContainer
                (expandButton isExpanded setExpandedIndex index) children;
       body := LeftContentContainer (js_and isExpanded content) |}
  else
    {| row := ListItemContainer
                children (expandButton isExpanded setExpandedIndex index);
       body := StyledContentContainer (js_and isExpanded content) |}.

(** The element [Accordion] creates for one item.  The props object is
    evaluated in source order: [item.content()] first, the child
    [item.header()] last. *)
Definition itemElement (expandedIndex : Z) (setExpandedIndex : Z -> H)
    (buttonOnLeft : option bool) (item : Item.t W ReactNode) (index : nat)
  : Render W (ItemProps.t H ReactNode) :=
  let* content := Item.content item in
  let* header := Item.header item in
  ret (ItemProps.Build
         (Z.of_nat index =? expandedIndex)
         (Z.of_nat index)
         (Z.of_nat index)
         content
         setExpandedIndex
         buttonOnLeft
         header).

(** [Accordion]: the children of the [AccordionContainer]. *)
Definition Accordion (expandedIndex : Z) (setExpandedIndex : Z -> H)
    (items : list (Item.t W ReactNode)) (buttonOnLeft : option bool)
  : Render W (list (ItemProps.t H ReactNode)) :=
  array_map (itemElement expandedIndex setExpandedIndex buttonOnLeft) items 0%nat.

(** The rendered list: every [AccordionItem] element expanded in turn. *)
Definition AccordionContainer (expandedIndex : Z) (setExpandedIndex : Z -> H)
    (items : list (Item.t W ReactNode)) (buttonOnLeft : option bool)
  : Render W (list (StyledLineItem H ReactNode)) :=
  let* elements := Accordion expandedIndex setExpandedIndex items buttonOnLeft in
  ret (map AccordionItem elements).

(** Reading the rendered tree. *)
Definition button_of (li : StyledLineItem H ReactNode) : Button H :=
  match row li with
  | ButtonLeftListItemContainer b _ => b
  | ListItemContainer _ b => b
  end.

Definition shown_content (li : StyledLineItem H ReactNode) : Child ReactNode :=
  match body li with
  | LeftContentContainer c => c
  | StyledContentContainer c => c
  end.

Definition is_open (li : StyledLineItem H ReactNode) : bool :=
  aria_expanded (button_of li).
End Components.

(** *** Observing renderer invocations

    A renderer is a black box; to see whether it ran, each item is wrapped
    so that running a renderer also appends to a call log kept next to the
    caller's world. *)
Inductive Call : Type :=
| ContentCall (index : nat)
| HeaderCall (index : nat).

Definition logged {W A} (c : Call) (r : Render W A) : Render (W * list Call) A :=
  fun '(w, log) => let (a, w') := r w in (a, (w', log ++ [c])).

Definition traced_item {W ReactNode} (index : nat) (item : Item.t W ReactNode)
  : Item.t (W * list Call) ReactNode :=
  Item.Build (logged (ContentCall index) (Item.content item))
             (logged (HeaderCall index) (Item.header item)).

Fixpoint traced_from {W ReactNode} (index : nat) (items : list (Item.t W ReactNode))
  : list (Item.t (W * list Call) ReactNode) :=
  match items with
  | [] => []
  | item :: rest => traced_item index item :: traced_from (S index) rest
  end.

Definition traced {W ReactNode} (items : list (Item.t W ReactNode))
  : list (Item.t (W * list Call) ReactNode) :=
  traced_from 0 items.

(** Content first, header second, item after item. *)
Definition every_renderer_once (n : nat) : list Call :=
  flat_map (fun i => [ContentCall i; HeaderCall i]) (seq 0 n).

(** The calls made while rendering [items] from world [w]. *)
Definition calls {W H ReactNode} (expandedIndex : Z) (setExpandedIndex : Z -> H)
    (items : list (Item.t W ReactNode)) (buttonOnLeft : option bool) (w : W)
  : list Call :=
  snd (snd (Accordion expandedIndex setExpandedIndex (traced items) buttonOnLeft (w, []))).

(** The owner of the index keeps it in a [useState] cell: the setter
    replaces the stored index. *)
Definition useState_setter (index : Z) : Z -> Z := fun _ => index.

(** A pure renderer, for examples. *)
Definition pure_item (c h : string) : Item.t unit string :=
  Item.Build (ret c) (ret h).

Definition three_items : list (Item.t unit string) :=
  [pure_item "c0" "h0"; pure_item "c1" "h1"; pure_item "c2" "h2"].

End Accordion.


(** ** sentryAppAvatar.tsx *)

Module Avatar.

(** An entry of [sentryApp.avatars]. *)
Record AvatarDetails : Type := {
  avatarType : string;
  avatarUuid : option string;
  color : option bool;
}.

Record AvatarSentryApp : Type := {
  name : string;
  avatars : option (list AvatarDetails);
}.

(** The [BaseAvatar] props the component forwards. *)
Record BaseProps : Type := {
  size : option Z;
  className : option string;
}.

(** [window.__initialData], as far as the component reads it. *)
Record Links : Type := { sentryUrl : option string }.
Record InitialData : Type := { links : option Links }.

Inductive Element : Type :=
| IconGeneric (legacySize : string) (className : option string) (data_test_id : string)
| BaseAvatar (props : BaseProps) (type : string) (uploadPath : string)
    (uploadId : option string) (uploadDomain : option string)
    (title : option string) (backupAvatar : Element).

(** The template literal [`${props.size}`]. *)
Definition template (size : option Z) : string :=
  match size with
  | Some n => pretty n
  | None => "undefined"
  end.

(** [color === isColor] *)
Definition same_color (isColor : bool) (a : AvatarDetails) : bool :=
  match color a with
  | Some c => Bool.eqb c isColor
  | None => false
  end.

(** [avatarDetails.avatarType === 'default'] *)
Definition is_default_type (a : AvatarDetails) : bool :=
  String.eqb (avatarType a) "default".

(** [sentryApp?.avatars?.find(({color}) => color === isColor)] *)
Definition find_avatar (isColor : bool) (sentryApp : option AvatarSentryApp)
  : option AvatarDetails :=
  match sentryApp with
  | Some app =>
      match avatars app with
      | Some l => List.find (same_color isColor) l
      | None => None
      end
  | None => None
  end.

(** Some entry of [sentryApp.avatars] carries the colour flag [c]. *)
Definition has_avatar_of_color (c : bool) (sentryApp : option AvatarSentryApp) : Prop :=
  exists app l a,
    sentryApp = Some app /\ avatars app = Some l /\ In a l /\ color a = Some c.

Definition defaultSentryAppAvatar (props : BaseProps) : Element :=
  IconGeneric (template (size props)) (className props) "default-sentry-app-avatar".

(** [window.__initialData?.links ?? {}], then its [sentryUrl]. *)
Definition sentryUrl_of (window : option InitialData) : option string :=
  match window with
  | Some d => match links d with Some l => sentryUrl l | None => None end
  | None => None
  end.

Definition SentryAppAvatar (window : option InitialData)
    (isColor : option bool) (sentryApp : option AvatarSentryApp)
    (isDefault : option bool) (props : BaseProps) : Element :=
  let isColor := default true isColor in
  let avatarDetails := find_avatar isColor sentryApp in
  let icon := defaultSentryAppAvatar props in
  if truthy isDefault
     || negb (present avatarDetails)
     || from_option is_default_type false avatarDetails
  then icon
  else
    BaseAvatar props "upload" "sentry-app-avatar"
      (avatarDetails ≫= avatarUuid)
      (sentryUrl_of window)
      (name <$> sentryApp)
      icon.

End Avatar.

(** ** The vital-detail view: display mode and vital kept in the URL query *)

Module VitalDetail.

(** A value of the router's query object. *)
Inductive QueryValue : Type :=
| QUndefined
| QNull
| QString (s : string)
| QArray (l : list string).

Abbreviation Query := (gmap string QueryValue).

(** Property read [query.k]: a missing key reads as [undefined]. *)
Definition field (q : Query) (k : string) : QueryValue :=
  default QUndefined (q !! k).

Record Location : Type := {
  pathname : string;
  query : Query;
}.

(** [enum DisplayModes] *)
Module DisplayModes.
Definition WORST_VITALS : string := "Worst Vitals".
Definition DURATION_P75 : string := "P75".
Definition known : list string := [WORST_VITALS; DURATION_P75].
End DisplayModes.

(** [WebVital] is a string enum declared outside these files; at run time
    its members are strings. *)
Definition WebVital : Type := string.

(** Modelled from the spec: [decodeScalar] (sentry/utils/queryString) is
    not among the source files.  The codec reads a field of an expected
    scalar type with a default; a field that is missing or is not a scalar
    falls back to the default, without error.  The expected type here is
    string, so a string decodes to itself. *)
Definition decodeScalar (value : QueryValue) (fallback : string) : string :=
  match value with
  | QString s => s
  | QUndefined | QNull | QArray _ => fallback
  end.

(** A query value of the expected scalar type. *)
Definition is_scalar (v : QueryValue) : bool :=
  match v with QString _ => true | _ => false end.

(** What a handler asks of its environment. *)
Inductive Effect : Type :=
| HistoryPush (pathname : string) (query : Query)
| Analytics (eventKey : string) (from_vital to_vital : string).

(** The query map of the first navigation among the effects. *)
Fixpoint pushed (effects : list Effect) : option Query :=
  match effects with
  | [] => None
  | HistoryPush _ q :: _ => Some q
  | _ :: rest => pushed rest
  end.

(** The chart area and the total-events cell of [renderContent]. *)
Inductive Chart : Type :=
| VitalWidgetWrapper (title : string) (chartHeight : Z) (fields : list string)
    (isVitalDetailView : bool)
| VitalChart (query : string).

Inductive TotalValue : Type :=
| Count (value : Z)
| EmDash.

Record DisplayOption : Type := { value : string; label : string }.

Record Content : Type := {
  searchBarQuery : string;
  chart : Chart;
  totalValue : TotalValue;
  selected : string;
  options : list DisplayOption;
  vitalInfo : WebVital;
}.

Section Component.
(** Declared outside these files: the enum member [WebVital.LCP], the
    date normaliser applied to a search's query object, the table of
    vital abbreviations, and the widget title looked up through
    [VITAL_TO_SETTING] and [WIDGET_DEFINITIONS]. *)
Variable LCP : WebVital.
Variable normalizeDateTimeParams : Query -> Query.
Variable vitalAbbreviations : gmap string string.
Variable widgetTitle : WebVital -> string.

(** [vitalName || WebVital.LCP]: the empty string and [undefined] are
    falsy. *)
Definition vital_of (vitalName : option WebVital) : WebVital :=
  match vitalName with
  | Some v => if String.eqb v "" then LCP else v
  | None => LCP
  end.

(** [decodeScalar(props.location.query.display, DisplayModes.WORST_VITALS)] *)
Definition display_of (location : Location) : string :=
  decodeScalar (field (query location) "display") DisplayModes.WORST_VITALS.

Definition handleSearch (location : Location) (q : string) : list Effect :=
  let queryParams :=
    normalizeDateTimeParams (<["query" := QString q]> (query location)) in
  (* do not propagate pagination when making a new search *)
  let searchQueryParams := delete "cursor" queryParams in
  [HistoryPush (pathname location) searchQueryParams].

(** [vitalAbbreviations[v] ?? 'undefined'] *)
Definition abbreviation (v : option WebVital) : string :=
  default "undefined" (v ≫= (vitalAbbreviations !!.)).

Definition switchWebVital (location : Location) (vitalName : option WebVital)
    (newVitalName : WebVital) : list Effect :=
  [HistoryPush (pathname location)
     (<["cursor" := QUndefined]>
        (<["vitalName" := QString newVitalName]> (query location)));
   Analytics "performance_views.vital_detail.switch_vital"
     (abbreviation vitalName) (abbreviation (Some newVitalName))].

Definition handleDisplayChange (location : Location) (value : string)
  : list Effect :=
  [HistoryPush (pathname location)
     (<["display" := QString value]> (query location))].

Definition generateDisplayOptions (vital : WebVital) : list DisplayOption :=
  [ {| value := DisplayModes.WORST_VITALS; label := widgetTitle vital |};
    {| value := DisplayModes.DURATION_P75; label := t DisplayModes.DURATION_P75 |} ].

(** [renderContent(vital)], with the variables it closes over.
    [totalEventsCount] is [None] when the state cell holds no number
    ([defined] is then false). *)
Definition renderContent (display : string) (totalEventsCount : option Z)
    (location : Location) (vital : WebVital) : Content :=
  let q := decodeScalar (field (query location) "query") "" in
  {| searchBarQuery := q;
     chart :=
       if String.eqb display DisplayModes.WORST_VITALS
       then VitalWidgetWrapper (widgetTitle vital) 180 ["measurements.lcp"%string] true
       else VitalChart q;
     totalValue :=
       match String.eqb display DisplayModes.WORST_VITALS, totalEventsCount with
       | true, Some n => Count n
       | _, _ => EmDash
       end;
     selected := display;
     options := generateDisplayOptions vital;
     vitalInfo := vital |}.

Definition VitalDetailContent (location : Location) (vitalName : option WebVital)
    (totalEventsCount : option Z) : Content :=
  let display := display_of location in
  let vital := vital_of vitalName in
  renderContent display totalEventsCount location vital.
End Component.


End VitalDetail.

(** ** sampleTable.tsx: three slices joined into table rows *)

Module SampleTable.

(** A span sample; ['transaction.id'] is the join key. *)
Record SpanSample : Type := {
  span_id : string;
  transaction_id : string;
}.

Record Transaction : Type := {
  id : string;
  timestamp : string;
}.

(** What each data hook hands back on a render.  The hooks themselves are
    collaborators; the component only reads these fields. *)
Record SpanMetrics : Type := {
  spanMetrics : gmap string string;
  isFetchingSpanMetrics : bool;
}.

Record SpanSamples : Type := {
  spans : list SpanSample;
  isFetchingSamples : bool;
  isSamplesEnabled : bool;
  sampleError : option string;
}.

Record Transactions : Type := {
  transactions : option (list Transaction);
  isFetchingTransactions : bool;
  isTransactionsEnabled : bool;
  isLoadingTransactions : bool;
  transactionError : option string;
}.

(** What [object[key]] reads on the plain object that [keyBy] builds: an
    own property, a property inherited from [Object.prototype], or
    [undefined]. *)
Inductive Property : Type :=
| Undefined
| Own (tx : Transaction)
| Inherited (key : string).

(** The property names of [Object.prototype]. *)
Definition Object_prototype : list string :=
  ["constructor"%string; "__defineGetter__"%string; "__defineSetter__"%string;
   "hasOwnProperty"%string; "__lookupGetter__"%string; "__lookupSetter__"%string;
   "isPrototypeOf"%string; "propertyIsEnumerable"%string; "toString"%string;
   "valueOf"%string; "__proto__"%string; "toLocaleString"%string].

Definition is_inherited (key : string) : bool :=
  existsb (String.eqb key) Object_prototype.

(** [object[key]]: own properties shadow the prototype's. *)
Definition get (object : gmap string Transaction) (key : string) : Property :=
  match object !! key with
  | Some tx => Own tx
  | None => if is_inherited key then Inherited key else Undefined
  end.

(** A row handed to [SpanSamplesTable]: [{...sample, op, transaction}]. *)
Record Row : Type := {
  sample : SpanSample;
  op : option string;
  transaction : Property;
}.

Record Rendered : Type := {
  pageError : option string;
  hasData : bool;
  data : list Row;
  isLoading : bool;
  avg : option string;
}.

(** lodash [keyBy(collection, 'id')]: later entries replace earlier ones
    with the same id; an undefined collection gives the empty object. *)
Definition keyBy (l : option (list Transaction)) : gmap string Transaction :=
  fold_left (fun m tx => <[id tx := tx]> m) (default [] l) ∅.

Section Component.
(** Members of [SpanMetricsField], declared outside these files. *)
Variable SPAN_SELF_TIME : string.
Variable SPAN_OP : string.

Definition avg_key : string := "avg(" +:+ SPAN_SELF_TIME +:+ ")".

Definition row_of (m : SpanMetrics) (transactionsById : gmap string Transaction)
    (s : SpanSample) : Row :=
  {| sample := s;
     op := spanMetrics m !! SPAN_OP;
     transaction := get transactionsById (transaction_id s) |}.

Definition SampleTable (m : SpanMetrics) (ss : SpanSamples) (ts : Transactions)
  : Rendered :=
  let transactionsById := keyBy (transactions ts) in
  let areNoSamples :=
    negb (isFetchingSamples ss) && (length (spans ss) =? 0)%nat in
  let isLoading :=
    isFetchingSpanMetrics m
    || isFetchingSamples ss
    || negb (isSamplesEnabled ss)
    || (negb areNoSamples && isFetchingTransactions ts
        && negb (isTransactionsEnabled ts)) in
  {| pageError :=
       if present (sampleError ss) || present (transactionError ts)
       then Some (t "An error has occured while loading the samples table")
       else None;
     hasData := (0 <? length (spans ss))%nat;
     data := map (row_of m transactionsById) (spans ss);
     isLoading := isLoading;
     avg := spanMetrics m !! avg_key |}.
End Component.

(** A render in which the samples are ready and the transactions request
    has failed. *)
Definition metrics_ready : SpanMetrics :=
  {| spanMetrics := {[ "span.op"%string := "db"%string ]};
     isFetchingSpanMetrics := false |}.

Definition samples_ready : SpanSamples :=
  {| spans := [ {| span_id := "a1"; transaction_id := "t1" |} ];
     isFetchingSamples := false;
     isSamplesEnabled := true;
     sampleError := None |}.

Definition transactions_failed : Transactions :=
  {| transactions := None;
     isFetchingTransactions := false;
     isTransactionsEnabled := true;
     isLoadingTransactions := false;
     transactionError := Some "504 Gateway Timeout"%string |}.

(** The first error among the failable slices, in hook order. *)
Definition first_error (ss : SpanSamples) (ts : Transactions) : option string :=
  match sampleError ss with
  | Some e => Some e
  | None => transactionError ts
  end.

End SampleTable.

(** ** Stale-response suppression *)

Module DataJoiner.

Section Joiner.
Context {Selection Slice Data : Type}.
Context `{EqDecision Selection} `{EqDecision Slice}.

(** The joiner's state: the current selection, the tags of the fetches in
    flight, and per slice what is shown together with the selection it was
    fetched for. *)
Record State : Type := {
  current : Selection;
  inflight : list (Selection * Slice);
  visible : Slice -> option (Selection * Data);
}.

(** Events arrive one at a time: the selection changes, the caller asks for
    a refetch of a slice, or a fetch completes. *)
Inductive Event : Type :=
| SelectionChanged (s : Selection)
| RefetchRequested (slice : Slice)
| FetchCompleted (tag : Selection) (slice : Slice) (result : Data).

Variable slices : list Slice.

Definition init (s : Selection) : State :=
  {| current := s;
     inflight := map (pair s) slices;
     visible := fun _ => None |}.

(** A fetch that has completed is no longer in flight. *)
Fixpoint landed (tag : Selection) (slice : Slice) (l : list (Selection * Slice))
  : list (Selection * Slice) :=
  match l with
  | [] => []
  | (s, x) :: rest =>
      if decide (s = tag /\ x = slice) then rest
      else (s, x) :: landed tag slice rest
  end.

(** Modelled from the spec: the data-fetch hooks ([useSpanMetrics],
    [useSpanSamples], [useTransactions]) that issue the requests and
    receive their completions are not among the source files.  The spec
    has every in-flight fetch tagged with the Selection snapshot it was
    issued for; on arrival the tag is compared against the current
    Selection and a stale result is discarded rather than applied.  A
    selection change discards the slices wholesale and issues one fetch per
    slice; fetches already in flight are not cancelled.  A refetch issues
    the same request again. *)
Definition step (st : State) (ev : Event) : State :=
  match ev with
  | SelectionChanged s =>
      if decide (s = current st) then st
      else {| current := s;
              inflight := map (pair s) slices ++ inflight st;
              visible := fun _ => None |}
  | RefetchRequested slice =>
      {| current := current st;
         inflight := (current st, slice) :: inflight st;
         visible := visible st |}
  | FetchCompleted tag slice result =>
      {| current := current st;
         inflight := landed tag slice (inflight st);
         visible :=
           if decide (tag = current st)
           then fun x => if decide (x = slice) then Some (tag, result) else visible st x
           else visible st |}
  end.

Definition run (st : State) (events : list Event) : State :=
  fold_left step events st.

(** What the view can see of the joiner. *)
Definition observable (st : State)
  : Selection * (Slice -> option (Selection * Data)) :=
  (current st, visible st).

(** Everything visible was fetched for the current selection. *)
Definition tagged_for_current (st : State) : Prop :=
  forall x tag d, visible st x = Some (tag, d) -> tag = current st.
End Joiner.

(** The sample table's instance: its selection is the props the three
    fetches are keyed by, its slices are the three hooks. *)
Record TableSelection : Type := {
  groupId : string;
  transactionName : string;
  transactionMethod : string;
}.

Inductive TableSlice : Type :=
| SpanMetricsSlice
| SpanSamplesSlice
| TransactionsSlice.

#[global] Instance TableSelection_eq_dec : EqDecision TableSelection.
Proof. solve_decision. Defined.

#[global] Instance TableSlice_eq_dec : EqDecision TableSlice.
Proof. solve_decision. Defined.

Definition table_slices : list TableSlice :=
  [SpanMetricsSlice; SpanSamplesSlice; TransactionsSlice].

Definition GET_users : TableSelection :=
  {| groupId := "g1"; transactionName := "/api/users"; transactionMethod := "GET" |}.

Definition POST_users : TableSelection :=
  {| groupId := "g1"; transactionName := "/api/users"; transactionMethod := "POST" |}.

End DataJoiner.

(** ** More of the accordion: the renderers as a sequence *)

Module Sequencing.

(** The world left behind by the renderers of [items], run the way
    [Accordion] runs them: content, then header, item after item. *)
Fixpoint run_renderers {W ReactNode} (items : list (Item.t W ReactNode)) (w : W) : W :=
  match items with
  | [] => w
  | item :: rest =>
      run_renderers rest (snd (Item.header item (snd (Item.content item w))))
  end.

(** A renderer that counts its own calls in a world of two counters. *)
Definition counting_item (c h : string) : Item.t (nat * nat) string :=
  Item.Build (fun '(nc, nh) => (c, (S nc, nh)))
             (fun '(nc, nh) => (h, (nc, S nh))).

End Sequencing.

(** ** More of the vital-detail view: the vital switcher and the header *)

Module VitalPage.
Import VitalDetail.

Record MenuItemProps : Type := {
  key : string;
  label : option string;
  onAction : list Effect;
}.

(** [<DropdownMenuControlV2 items triggerLabel triggerProps placement />] *)
Record DropdownMenuControlV2 : Type := {
  items : list MenuItemProps;
  triggerLabel : option string;
  aria_label : string;
  prefix : string;
  placement : string;
}.

Inductive BrowserIcon : Type := IconCheckmark | IconClose.

(** [a === b] for a possibly undefined [a] and a string [b]. *)
Definition strict_eq (a : option WebVital) (b : WebVital) : bool :=
  match a with
  | Some x => String.eqb x b
  | None => false
  end.

(** [Array.prototype.indexOf]: the first position holding the value, [-1]
    when there is none. *)
Fixpoint indexOf_from (l : list WebVital) (v : option WebVital) (from : Z) : Z :=
  match l with
  | [] => -1
  | x :: rest => if strict_eq v x then from else indexOf_from rest v (from + 1)
  end.

Definition indexOf (l : list WebVital) (v : option WebVital) : Z :=
  indexOf_from l v 0.

(** The property key an optional string is coerced to in [table[v]]. *)
Definition property_key (v : option WebVital) : string :=
  default "undefined"%string v.

(** The router showing the page again after a push: the pushed query
    becomes the location's query. *)
Definition after (location : Location) (effects : list Effect) : Location :=
  match pushed effects with
  | Some q => {| pathname := pathname location; query := q |}
  | None => location
  end.

Section Switcher.
(** Declared outside these files: the four enum members listed in
    [FRONTEND_VITALS], the abbreviation table, and the tables and the
    [Browser] enum the header reads. *)
Variables FCP LCP FID CLS : WebVital.
Variable vitalAbbreviations : gmap string string.
Variable vitalMap : gmap string string.
Variable vitalDescription : gmap string string.
Variable vitalSupportedBrowsers : gmap string (list string).
Variable Browser : list string.

Definition FRONTEND_VITALS : list WebVital := [FCP; LCP; FID; CLS].

Definition itemProps (location : Location) (vitalName : option WebVital)
    (newVitalName : WebVital) : MenuItemProps :=
  {| key := newVitalName;
     label := vitalAbbreviations !! newVitalName;
     onAction := switchWebVital vitalAbbreviations location vitalName newVitalName |}.

(** The reducer of [renderVitalSwitcher]: the current vital is put in front
    ([unshift]), every other one at the end ([push]). *)
Definition reducer (location : Location) (vitalName : option WebVital)
    (acc : list MenuItemProps) (newVitalName : WebVital) : list MenuItemProps :=
  if strict_eq vitalName newVitalName
  then itemProps location vitalName newVitalName :: acc
  else acc ++ [itemProps location vitalName newVitalName].

Definition menu_items (location : Location) (vitalName : option WebVital)
    (vitals : list WebVital) : list MenuItemProps :=
  fold_left (reducer location vitalName) vitals [].

Definition renderVitalSwitcher (location : Location) (vitalName : option WebVital)
  : option DropdownMenuControlV2 :=
  let position := indexOf FRONTEND_VITALS vitalName in
  if position <? 0 then None
  else
    Some {| items := menu_items location vitalName FRONTEND_VITALS;
            triggerLabel := vitalAbbreviations !! property_key vitalName;
            aria_label :=
              "Web Vitals: " +:+ default "undefined"%string
                                  (vitalAbbreviations !! property_key vitalName);
            prefix := t "Web Vitals";
            placement := "bottom left" |}.

(** [<Layout.Title>{vitalMap[vital]}</Layout.Title>] *)
Definition pageTitle (vital : WebVital) : option string := vitalMap !! vital.

(** [<StyledDescription>{vitalDescription[vitalName]}</StyledDescription>] *)
Definition description (vitalName : option WebVital) : option string :=
  vitalDescription !! property_key vitalName.

(** [vitalSupportedBrowsers[vitalName]?.includes(browser)] *)
Definition supports (vitalName : option WebVital) (browser : string) : bool :=
  match vitalSupportedBrowsers !! property_key vitalName with
  | Some l => existsb (String.eqb browser) l
  | None => false
  end.

(** [Object.values(Browser).map(browser => <BrowserItem ...>)] *)
Definition supportedBrowsers (vitalName : option WebVital)
  : list (BrowserIcon * string) :=
  map (fun browser =>
         (if supports vitalName browser then IconCheckmark else IconClose, browser))
      Browser.
End Switcher.

End VitalPage.

(** ** More of the sample table: the loaded-samples effect *)

Module SamplesLoaded.
Import SampleTable.

(** What one run of the effect asks for. *)
Inductive Action : Type :=
| TrackAnalytics (eventKey : string) (count : nat)
| SetLoadedSpans (b : bool).

(** The transactions are there: not loading, not fetching, enabled. *)
Definition settled (ts : Transactions) : bool :=
  negb (isLoadingTransactions ts || isFetchingTransactions ts
        || negb (isTransactionsEnabled ts)).

(** The body of the [useEffect].  [transactions?.length ?? 0] is the number
    of transactions, zero when there are none. *)
Definition effect (loadedSpans : bool) (ts : Transactions) : list Action :=
  if isLoadingTransactions ts || isFetchingTransactions ts
     || negb (isTransactionsEnabled ts)
  then [SetLoadedSpans false]
  else if loadedSpans then []
  else [TrackAnalytics "starfish.samples.loaded"
          (length (default [] (transactions ts)));
        SetLoadedSpans true].

(** The state cell after the actions: the last value set, if any. *)
Fixpoint loaded_after (loadedSpans : bool) (actions : list Action) : bool :=
  match actions with
  | [] => loadedSpans
  | SetLoadedSpans b :: rest => loaded_after b rest
  | TrackAnalytics _ _ :: rest => loaded_after loadedSpans rest
  end.

(** The effect run once per element of [renders], the state cell carried
    from one run to the next. *)
Fixpoint effect_runs (loadedSpans : bool) (renders : list Transactions)
  : list Action * bool :=
  match renders with
  | [] => ([], loadedSpans)
  | ts :: rest =>
      let actions := effect loadedSpans ts in
      let (later, final) := effect_runs (loaded_after loadedSpans actions) rest in
      (actions ++ later, final)
  end.

Definition is_track (a : Action) : bool :=
  match a with TrackAnalytics _ _ => true | SetLoadedSpans _ => false end.

(** How often a sequence of booleans turns true, coming from [prev]. *)
Fixpoint rising_edges (prev : bool) (l : list bool) : nat :=
  match l with
  | [] => 0
  | b :: rest => (if b && negb prev then 1 else 0) + rising_edges b rest
  end.

End SamplesLoaded.

(** ** Sample data for the examples *)

Module Samples.
Import VitalDetail SampleTable.

Definition abbreviations : gmap string string :=
  {[ "measurements.fcp"%string := "FCP"%string;
     "measurements.lcp"%string := "LCP"%string;
     "measurements.fid"%string := "FID"%string;
     "measurements.cls"%string := "CLS"%string ]}.

Definition descriptions : gmap string string :=
  {[ "measurements.lcp"%string := "Largest contentful paint"%string ]}.

Definition titles : gmap string string :=
  {[ "measurements.lcp"%string := "Largest Contentful Paint"%string ]}.

Definition browsers_of : gmap string (list string) :=
  {[ "measurements.lcp"%string := ["Chrome"%string; "Edge"%string] ]}.

Definition browsers : list string :=
  ["Chrome"%string; "Edge"%string; "Firefox"%string; "Safari"%string].

Definition page_two : Location :=
  {| pathname := "/performance/vitaldetail/";
     query := {[ "cursor"%string := QString "0:10:0" ]} |}.

(** Two transactions under the same id, and one sample pointing at it. *)
Definition first_t1 : Transaction := {| id := "t1"; timestamp := "10:00" |}.
Definition second_t1 : Transaction := {| id := "t1"; timestamp := "10:05" |}.
Definition only_t2 : Transaction := {| id := "t2"; timestamp := "10:07" |}.

Definition transactions_ready (l : list Transaction) : Transactions :=
  {| transactions := Some l;
     isFetchingTransactions := false;
     isTransactionsEnabled := true;
     isLoadingTransactions := false;
     transactionError := None |}.

(** A sample whose transaction id is the name of an inherited property. *)
Definition sample_named_constructor : SpanSamples :=
  {| spans := [ {| span_id := "a2"; transaction_id := "constructor" |} ];
     isFetchingSamples := false;
     isSamplesEnabled := true;
     sampleError := None |}.

Definition transactions_loading : Transactions :=
  {| transactions := None;
     isFetchingTransactions := true;
     isTransactionsEnabled := true;
     isLoadingTransactions := true;
     transactionError := None |}.

End Samples.

(** ** The migration renumbering script *)

Module Migration.

(** How a call ends: with a value, with [click.Abort], or with a
    [ValueError] (a failed tuple unpacking or a failed [int]). *)
Inductive Outcome (A : Type) : Type :=
| Returned (a : A)
| Abort
| ValueError.
Arguments Returned {A} _.
Arguments Abort {A}.
Arguments ValueError {A}.

Record MigrationMeta : Type := {
  number : Z;
  name : string;
  path : string;
}.

(** *** The string operations the script uses *)

Definition has_char (c : ascii) (s : string) : bool :=
  existsb (Ascii.eqb c) (list_ascii_of_string s).

(** [os.path.basename]: what follows the last slash. *)
Fixpoint basename (p : string) : string :=
  match p with
  | EmptyString => EmptyString
  | String c rest =>
      if has_char "/" rest then basename rest
      else if Ascii.eqb c "/" then rest else p
  end.

(** [s.split(sep, maxsplit)] for a one-character separator: at most
    [maxsplit] cuts, made from the left. *)
Fixpoint split (sep : ascii) (s : string) (maxsplit : nat) {struct s} : list string :=
  match s with
  | EmptyString => [EmptyString]
  | String c rest =>
      match maxsplit with
      | O => [s]
      | S fewer =>
          if Ascii.eqb c sep then EmptyString :: split sep rest fewer
          else match split sep rest maxsplit with
               | piece :: pieces => String c piece :: pieces
               | [] => [String c EmptyString]
               end
      end
  end.

(** [str(n)] *)
Definition str (n : Z) : string := NilEmpty.string_of_int (Z.to_int n).

Fixpoint zeros (k : nat) : string :=
  match k with
  | O => EmptyString
  | S k => String "0" (zeros k)
  end.

(** The format [{n:04}]: zero padding to width four, the sign counted in
    the width and put before the zeros. *)
Definition format04 (n : Z) : string :=
  let digits := NilEmpty.string_of_uint (N.to_uint (Z.abs_N n)) in
  if n <? 0 then String "-" (zeros (3 - String.length digits) +:+ digits)
  else zeros (4 - String.length digits) +:+ digits.

(** [s.replace(old, new)] for a non-empty [old]: every occurrence, found
    from the left and not overlapping.  [skip] counts the characters of an
    occurrence still to be passed over. *)
Fixpoint replace_from (old new s : string) (skip : nat) : string :=
  match s with
  | EmptyString => EmptyString
  | String c rest =>
      match skip with
      | S k => replace_from old new rest k
      | O =>
          if String.prefix old s
          then new +:+ replace_from old new rest (String.length old - 1)
          else String c (replace_from old new rest 0)
      end
  end.

(** With an empty [old], [new] goes before every character and at the end. *)
Fixpoint interleave (new s : string) : string :=
  match s with
  | EmptyString => new
  | String c rest => new +:+ String c (interleave new rest)
  end.

Definition replace (old new s : string) : string :=
  match old with
  | EmptyString => interleave new s
  | String _ _ => replace_from old new s 0
  end.

(** *** [MigrationMeta] *)

Definition full_name (m : MigrationMeta) : string :=
  format04 (number m) +:+ "_" +:+ name m.

Section Script.
(** Python's [int] on a string ([None] for a [ValueError]) and
    [Path.resolve] belong to the language and the file system. *)
Variable int : string -> option Z.
Variable resolve : string -> string.

Definition from_filename (filepath : string) : Outcome MigrationMeta :=
  let filename := basename filepath in
  match split "." filename 2 with
  | [name; _] =>
      match split "_" name 1 with
      | [number; name] =>
          match int number with
          | Some number =>
              Returned {| number := number; name := name; path := filepath |}
          | None => ValueError
          end
      | _ => ValueError
      end
  | _ => ValueError
  end.

(** [find_migration], given what the glob matched: the lines echoed and the
    outcome. *)
Definition find_migration (matches : list string) (migration : string)
  : list string * Outcome MigrationMeta :=
  if (1 <? length matches)%nat then
    (["Found multiple migrations matching " +:+ migration]
       ++ map (fun m => "- " +:+ m) matches
       ++ ["Try again with a more specific pattern"%string],
     Abort)
  else
    match matches with
    | [] => (["Could not find migration matching " +:+ migration], Abort)
    | first :: _ => ([], from_filename (resolve first))
    end.

(** The loop of [find_highest_migration]. *)
Fixpoint scan (matches : list string) (highest : Z) (found : option MigrationMeta)
  : Outcome (option MigrationMeta) :=
  match matches with
  | [] => Returned found
  | m :: rest =>
      match from_filename (resolve m) with
      | Returned meta =>
          if highest <? number meta
          then scan rest (number meta) (Some meta)
          else scan rest highest found
      | Abort => Abort
      | ValueError => ValueError
      end
  end.

Definition find_highest_migration (matches : list string)
  : list string * Outcome MigrationMeta :=
  match scan matches 0 None with
  | Returned (Some found) =>
      (["> Current head migration is " +:+ full_name found], Returned found)
  | Returned None => (["Could not find the head migration"%string], Abort)
  | Abort => ([], Abort)
  | ValueError => ([], ValueError)
  end.
End Script.

(** [new_name] of [main]: the migration's number replaced by the number
    after the head's, wherever its digits occur in the full name. *)
Definition new_name (migration_meta current_head : MigrationMeta) : string :=
  replace (str (number migration_meta)) (str (number current_head + 1))
          (full_name migration_meta).

(** Reading a string of decimal digits, as [int] does on such a string. *)
Definition int_of_digits (s : string) : option Z :=
  match s with
  | EmptyString => None
  | String _ _ =>
      option_map (fun d => Z.of_N (N.of_uint d)) (NilEmpty.uint_of_string s)
  end.

End Migration.

(** ** Notions used to state the script's properties *)

Module MigrationNotions.
Import Migration.

Definition is_digit (c : ascii) : bool :=
  existsb (Ascii.eqb c) (list_ascii_of_string "0123456789").

(** [old] occurs somewhere in [s]. *)
Fixpoint occurs (old s : string) : bool :=
  match s with
  | EmptyString => String.prefix old s
  | String _ rest => String.prefix old s || occurs old rest
  end.

(** A migration of the examples, and the head it is moved past. *)
Definition add_index : MigrationMeta :=
  {| number := 12; name := "add_index";
     path := "/sentry/migrations/0012_add_index.py" |}.

Definition add_12_columns : MigrationMeta :=
  {| number := 12; name := "add_12_columns";
     path := "/sentry/migrations/0012_add_12_columns.py" |}.

Definition head_41 : MigrationMeta :=
  {| number := 41; name := "drop_table";
     path := "/sentry/migrations/0041_drop_table.py" |}.

Definition head_499 : MigrationMeta :=
  {| number := 499; name := "drop_table";
     path := "/sentry/migrations/0499_drop_table.py" |}.

(** The migration directory of the examples. *)
Definition migration_files : list string :=
  ["/sentry/migrations/0001_squashed.py"%string;
   "/sentry/migrations/0003_add_index.py"%string;
   "/sentry/migrations/0002_add_column.py"%string].

End MigrationNotions.

(** * Properties *)

(** ** Accordion *)

Section AccordionFacts.
Import Accordion.
Context {W H ReactNode : Type}.
Implicit Types (items : list (Item.t W ReactNode)) (f : Z -> H) (e : Z).

Lemma array_map_cons {A B} (g : A -> nat -> Render W B) a rest k w :
  array_map g (a :: rest) k w
  = let (x, w1) := g a k w in
    let (xs, w2) := array_map g rest (S k) w1 in
    (x :: xs, w2).
Proof. reflexivity. Qed.

Lemma itemElement_run e f b (a : Item.t W ReactNode) k w :
  itemElement e f b a k w
  = let (c, w1) := Item.content a w in
    let (h, w2) := Item.header a w1 in
    (ItemProps.Build (Z.of_nat k =? e) (Z.of_nat k) (Z.of_nat k) c f b h, w2).
Proof. reflexivity. Qed.


Lemma array_map_element e f b items : forall k w i p,
  fst (array_map (itemElement e f b) items k w) !! i = Some p ->
  ItemProps.isExpanded p = (Z.of_nat (k + i) =? e)
  /\ ItemProps.currentIndex p = Z.of_nat (k + i)
  /\ ItemProps.key p = Z.of_nat (k + i)
  /\ ItemProps.setExpandedIndex p = f
  /\ ItemProps.buttonOnLeft p = b.
Proof.
  induction items as [|a rest IH]; intros k w i p.
  - intros Hl. discriminate Hl.
  - rewrite array_map_cons, itemElement_run.
    destruct (Item.content a w) as [c w1].
    destruct (Item.header a w1) as [h w2].
    specialize (IH (S k) w2).
    destruct (array_map (itemElement e f b) rest (S k) w2) as [xs w3].
    simpl in *. destruct i as [|i]; simpl.
    + intros [= <-]. simpl. rewrite Nat.add_0_r. auto.
    + intros Hl. specialize (IH i p Hl).
      replace (k + S i)%nat with (S k + i)%nat by lia. exact IH.
Qed.

Lemma Accordion_element e f b items w i p :
  fst (Accordion e f items b w) !! i = Some p ->
  ItemProps.isExpanded p = (Z.of_nat i =? e)
  /\ ItemProps.currentIndex p = Z.of_nat i
  /\ ItemProps.setExpandedIndex p = f
  /\ ItemProps.buttonOnLeft p = b.
Proof.
  intros Hl. apply array_map_element in Hl. simpl in Hl. tauto.
Qed.


Lemma AccordionContainer_fst e f b items w :
  fst (AccordionContainer e f items b w)
  = map AccordionItem (fst (Accordion e f items b w)).
Proof.
  unfold AccordionContainer, bind, ret.
  destruct (Accordion e f items b w); reflexivity.
Qed.

Lemma AccordionContainer_lookup e f b items w i li :
  fst (AccordionContainer e f items b w) !! i = Some li ->
  exists p, fst (Accordion e f items b w) !! i = Some p /\ li = AccordionItem p.
Proof.
  rewrite AccordionContainer_fst, list_lookup_fmap.
  destruct (fst (Accordion e f items b w) !! i) as [p|]; simpl; [|discriminate].
  intros [= <-]. eauto.
Qed.

Lemma AccordionItem_button (p : ItemProps.t H ReactNode) :
  button_of (AccordionItem p)
  = expandButton (ItemProps.isExpanded p) (ItemProps.setExpandedIndex p)
      (ItemProps.currentIndex p).
Proof. unfold AccordionItem, button_of. destruct (truthy _); reflexivity. Qed.

Lemma AccordionItem_shown (p : ItemProps.t H ReactNode) :
  shown_content (AccordionItem p)
  = js_and (ItemProps.isExpanded p) (ItemProps.content p).
Proof. unfold AccordionItem, shown_content. destruct (truthy _); reflexivity. Qed.

Lemma rendered_is_open e f b items w i li :
  fst (AccordionContainer e f items b w) !! i = Some li ->
  is_open li = (Z.of_nat i =? e).
Proof.
  intros Hl. apply AccordionContainer_lookup in Hl as (p & Hp & ->).
  apply Accordion_element in Hp as (Hx & _).
  unfold is_open. rewrite AccordionItem_button. exact Hx.
Qed.
End AccordionFacts.

Section AccordionClaims.
Import Accordion.
Context {W H ReactNode : Type}.
Implicit Types (items : list (Item.t W ReactNode)) (f : Z -> H) (e : Z).

Lemma traced_calls e f b items : forall k w log,
  snd (snd (array_map (itemElement e f b) (traced_from k items) k (w, log)))
  = log ++ flat_map (fun i => [ContentCall i; HeaderCall i]) (seq k (length items)).
Proof.
  induction items as [|a rest IH]; intros k w log.
  - simpl. now rewrite app_nil_r.
  - cbn [traced_from]. rewrite array_map_cons, itemElement_run.
    cbn [traced_item Item.content Item.header logged].
    destruct (Item.content a w) as [c w1].
    cbn [logged].
    destruct (Item.header a w1) as [h w2].
    specialize (IH (S k) w2 ((log ++ [ContentCall k]) ++ [HeaderCall k])).
    destruct (array_map (itemElement e f b) (traced_from (S k) rest) (S k)
                (w2, (log ++ [ContentCall k]) ++ [HeaderCall k])) as [xs w3].
    cbn [snd] in *. rewrite IH. cbn [length seq flat_map].
    now rewrite <- !app_assoc.
Qed.

(** C1 (as amended).  Rendering runs the content renderer and then the
    header renderer of every item, once each and in list order, whatever
    the expanded index is; what depends on the expanded index is only
    which content is shown: the content container of an item holds the
    item's content when its index equals [expandedIndex] and [false]
    otherwise. *)
Theorem content_run_for_all_shown_for_expanded e f items b w :
  calls e f items b w = every_renderer_once (length items)
  /\ forall i p,
       fst (Accordion e f items b w) !! i = Some p ->
       shown_content (AccordionItem p)
       = if Z.of_nat i =? e then Node (ItemProps.content p) else JsFalse.
Proof.
  split.
  - unfold calls, Accordion, traced, every_renderer_once.
    now rewrite traced_calls.
  - intros i p Hp. rewrite AccordionItem_shown.
    apply Accordion_element in Hp as (-> & _). reflexivity.
Qed.



(** C8.  The expand control of the item at position [i] calls
    [setExpandedIndex] with [i], whether the item is currently expanded or
    not and in either button layout; once the owner has stored that index,
    the item at [i] is rendered expanded, so clicking the open item leaves
    it open. *)
Theorem click_sets_the_clicked_index e f items b w i li :
  fst (AccordionContainer e f items b w) !! i = Some li ->
  onClick (button_of li) = f (Z.of_nat i)
  /\ forall w' li',
       fst (AccordionContainer (Z.of_nat i) f items b w') !! i = Some li' ->
       is_open li' = true.
Proof.
  intros Hl. split.
  - apply AccordionContainer_lookup in Hl as (p & Hp & ->).
    apply Accordion_element in Hp as (_ & Hi & Hf & _).
    rewrite AccordionItem_button. unfold expandButton. simpl.
    now rewrite Hf, Hi.
  - intros w' li' Hl'.
    rewrite (rendered_is_open _ _ _ _ _ _ _ Hl'). apply Z.eqb_refl.
Qed.
End AccordionClaims.

(** The spec's scenario: three items, index 0 expanded.  The content
    renderer of item 1 is called although item 1 is not the expanded one. *)
Lemma content_of_collapsed_item_is_called :
  Z.of_nat 1 <> 0
  /\ In (Accordion.ContentCall 1)
        (Accordion.calls 0 Accordion.useState_setter Accordion.three_items None tt).
Proof. split; [discriminate|]. vm_compute. auto. Qed.

(** The spec's scenario, continued: item 2 is clicked while item 0 is open,
    and clicked again once it is open itself. *)
Example click_on_item_two :
  exists li,
    fst (Accordion.AccordionContainer 0 Accordion.useState_setter
           Accordion.three_items None tt) !! 2%nat = Some li
    /\ Accordion.is_open li = false
    /\ Accordion.onClick (Accordion.button_of li) 0 = 2.
Proof. eexists. repeat split. Qed.

Lemma click_sets_the_clicked_index_witness :
  exists li,
    fst (Accordion.AccordionContainer 2 Accordion.useState_setter
           Accordion.three_items None tt) !! 2%nat = Some li
    /\ Accordion.onClick (Accordion.button_of li)
       = Accordion.useState_setter (Z.of_nat 2)
    /\ forall w' li',
         fst (Accordion.AccordionContainer (Z.of_nat 2) Accordion.useState_setter
                Accordion.three_items None w') !! 2%nat = Some li' ->
         Accordion.is_open li' = true.
Proof.
  eexists. split; [reflexivity|].
  exact (click_sets_the_clicked_index 2 Accordion.useState_setter
           Accordion.three_items None tt 2%nat _ eq_refl).
Defined.

(** ** SentryAppAvatar *)

Section AvatarClaims.
Import Avatar.

Lemma same_color_true c a : same_color c a = true <-> color a = Some c.
Proof.
  unfold same_color. destruct (color a) as [x|].
  - rewrite Bool.eqb_true_iff. split; congruence.
  - split; discriminate.
Qed.

Lemma find_avatar_Some c sentryApp a :
  find_avatar c sentryApp = Some a -> color a = Some c.
Proof.
  unfold find_avatar. destruct sentryApp as [app|]; [|discriminate].
  destruct (avatars app) as [l|]; [|discriminate].
  intros Hf. apply find_some in Hf as [_ Hc]. now apply same_color_true.
Qed.

Lemma find_avatar_has c sentryApp a :
  find_avatar c sentryApp = Some a -> has_avatar_of_color c sentryApp.
Proof.
  intros Hf. pose proof (find_avatar_Some _ _ _ Hf) as Hc.
  unfold find_avatar in Hf. destruct sentryApp as [app|]; [|discriminate].
  destruct (avatars app) as [l|] eqn:Hl; [|discriminate].
  apply find_some in Hf as [Hin _]. exists app, l, a. auto.
Qed.

Lemma find_avatar_None c sentryApp :
  find_avatar c sentryApp = None <-> ~ has_avatar_of_color c sentryApp.
Proof.
  unfold find_avatar, has_avatar_of_color. split.
  - intros Hf (app & l & a & -> & Hl & Hin & Hc). rewrite Hl in Hf.
    apply (find_none _ _ Hf) in Hin. apply same_color_true in Hc. congruence.
  - intros Hno. destruct sentryApp as [app|]; [|reflexivity].
    destruct (avatars app) as [l|] eqn:Hl; [|reflexivity].
    destruct (find (same_color c) l) as [a|] eqn:Hf; [|reflexivity].
    exfalso. apply Hno. apply find_some in Hf as [Hin Hc].
    exists app, l, a. rewrite same_color_true in Hc. auto.
Qed.

(** C10.  The default icon is rendered exactly when [isDefault] is true,
    or no avatar of the app has the colour flag asked for (an absent app
    or avatar list included), or the first avatar with that flag has type
    'default'.  In every other case the result is an uploaded
    [BaseAvatar] whose upload id is that avatar's uuid and whose backup
    avatar is the same default icon. *)
Theorem SentryAppAvatar_default_or_upload window isColor sentryApp isDefault props :
  (SentryAppAvatar window isColor sentryApp isDefault props
     = defaultSentryAppAvatar props
   <-> (isDefault = Some true
        \/ ~ has_avatar_of_color (default true isColor) sentryApp
        \/ exists a, find_avatar (default true isColor) sentryApp = Some a
                     /\ avatarType a = "default"%string))
  /\ (SentryAppAvatar window isColor sentryApp isDefault props
         <> defaultSentryAppAvatar props ->
      exists a,
        find_avatar (default true isColor) sentryApp = Some a
        /\ color a = Some (default true isColor)
        /\ SentryAppAvatar window isColor sentryApp isDefault props
           = BaseAvatar props "upload" "sentry-app-avatar"
               (avatarUuid a) (sentryUrl_of window) (name <$> sentryApp)
               (defaultSentryAppAvatar props)).
Proof.
  unfold SentryAppAvatar.
  destruct (find_avatar (default true isColor) sentryApp) as [a|] eqn:Hf.
  - cbn [present negb from_option mbind option_bind].
    pose proof (find_avatar_Some _ _ _ Hf) as Hc.
    assert (Hhas : has_avatar_of_color (default true isColor) sentryApp).
    { exact (find_avatar_has _ _ _ Hf). }
    rewrite Bool.orb_false_r.
    destruct (truthy isDefault) eqn:Ht; cbn [orb].
    + split.
      * split; [intros _|reflexivity]. left.
        destruct isDefault as [[]|]; simpl in Ht; congruence.
      * intros Hne. now contradiction Hne.
    + destruct (is_default_type a) eqn:Hd.
      * split.
        -- split; [intros _|reflexivity]. right. right. exists a.
           split; [reflexivity|]. now apply String.eqb_eq.
        -- intros Hne. now contradiction Hne.
      * split.
        -- split; [discriminate|].
           intros [Hi|[Hno|(a' & [= <-] & Hty)]].
           ++ subst isDefault. discriminate Ht.
           ++ contradiction.
           ++ apply String.eqb_eq in Hty. unfold is_default_type in Hd. congruence.
        -- intros _. exists a. auto.
  - cbn [present negb]. rewrite Bool.orb_true_r. cbn [orb].
    split.
    + split; [intros _|reflexivity]. right. left. now apply find_avatar_None.
    + intros Hne. now contradiction Hne.
Qed.
End AvatarClaims.

(** ** The vital-detail view *)

Section VitalDetailClaims.
Import VitalDetail.
Variable LCP : WebVital.
Variable normalizeDateTimeParams : Query -> Query.
Variable vitalAbbreviations : gmap string string.
Variable widgetTitle : WebVital -> string.

Lemma field_insert_eq (q : Query) k v : field (<[k := v]> q) k = v.
Proof. unfold field. now rewrite lookup_insert_eq. Qed.

Lemma field_lookup (q q' : Query) k : q' !! k = q !! k -> field q' k = field q k.
Proof. unfold field. now intros ->. Qed.

(** C2 (as amended).  A new search and a switch of vital push a query map
    whose [cursor] reads as undefined; a change of display mode overwrites
    [display] and carries the previous [cursor] entry over as it is. *)
Theorem cursor_after_transition (location : Location) :
  (forall q, exists q',
      pushed (handleSearch normalizeDateTimeParams location q) = Some q'
      /\ q' !! "cursor" = None
      /\ field q' "cursor" = QUndefined)
  /\ (forall vitalName newVitalName, exists q',
        pushed (switchWebVital vitalAbbreviations location vitalName newVitalName)
          = Some q'
        /\ field q' "cursor" = QUndefined)
  /\ (forall value, exists q',
        pushed (handleDisplayChange location value) = Some q'
        /\ field q' "display" = QString value
        /\ q' !! "cursor" = query location !! "cursor").
Proof.
  split; [|split].
  - intros q. eexists. split; [reflexivity|].
    unfold field. rewrite lookup_delete_eq. auto.
  - intros vitalName newVitalName. eexists. split; [reflexivity|].
    apply field_insert_eq.
  - intros value. eexists. split; [reflexivity|]. split.
    + apply field_insert_eq.
    + now rewrite lookup_insert_ne.
Qed.

(** C6 (as amended).  The switch of vital and the change of display mode
    change the entry of their own field and nothing else, with one
    exception: the switch of vital also sets [cursor] to undefined, while
    the change of display mode leaves the cursor as it was.  Every other
    entry of the pushed query map is the entry of the previous map, so the
    fields these transitions do not name are carried over, not reset to
    their defaults.  A new search is different: it removes the cursor, and
    every other entry it pushes is the entry of the date-normalised map in
    which [query] was set, so a parameter is carried over only as far as
    the normalisation leaves it alone. *)
Theorem transition_changes_only_its_field (location : Location) :
  (forall vitalName newVitalName, exists q',
      pushed (switchWebVital vitalAbbreviations location vitalName newVitalName)
        = Some q'
      /\ field q' "vitalName" = QString newVitalName
      /\ field q' "cursor" = QUndefined
      /\ (forall k, k <> "vitalName"%string -> k <> "cursor"%string ->
            q' !! k = query location !! k)
      /\ display_of {| pathname := pathname location; query := q' |}
         = display_of location)
  /\ (forall value, exists q',
        pushed (handleDisplayChange location value) = Some q'
        /\ field q' "display" = QString value
        /\ (forall k, k <> "display"%string -> q' !! k = query location !! k)
        /\ field q' "vitalName" = field (query location) "vitalName"
        /\ field q' "query" = field (query location) "query")
  /\ (forall q, exists q',
        pushed (handleSearch normalizeDateTimeParams location q) = Some q'
        /\ q' !! "cursor" = None
        /\ (forall k, k <> "cursor"%string ->
              q' !! k
              = normalizeDateTimeParams (<["query" := QString q]> (query location))
                  !! k)
        /\ (forall k, k <> "cursor"%string -> k <> "query"%string ->
              normalizeDateTimeParams (<["query" := QString q]> (query location)) !! k
              = (<["query" := QString q]> (query location) : Query) !! k ->
              q' !! k = query location !! k)).
Proof.
  split; [|split].
  - intros vitalName newVitalName. eexists. split; [reflexivity|].
    assert (Hframe : forall k, k <> "vitalName"%string -> k <> "cursor"%string ->
              (<["cursor" := QUndefined]>
                 (<["vitalName" := QString newVitalName]> (query location))
               : Query) !! k = query location !! k).
    { intros k Hv Hc. rewrite lookup_insert_ne by congruence.
      now rewrite lookup_insert_ne by congruence. }
    repeat split.
    + unfold field. rewrite lookup_insert_ne by discriminate.
      now rewrite lookup_insert_eq.
    + apply field_insert_eq.
    + exact Hframe.
    + unfold display_of. cbn [query]. f_equal. apply field_lookup.
      apply Hframe; discriminate.
  - intros value. eexists. split; [reflexivity|].
    assert (Hframe : forall k, k <> "display"%string ->
              (<["display" := QString value]> (query location) : Query) !! k
              = query location !! k).
    { intros k Hd. now rewrite lookup_insert_ne by congruence. }
    repeat split.
    + apply field_insert_eq.
    + exact Hframe.
    + apply field_lookup, Hframe; discriminate.
    + apply field_lookup, Hframe; discriminate.
  - intros q. eexists. split; [reflexivity|]. split; [|split].
    + apply lookup_delete_eq.
    + intros k Hk. now rewrite lookup_delete_ne by congruence.
    + intros k Hc Hq Hkeep. rewrite lookup_delete_ne by congruence.
      rewrite Hkeep. now rewrite lookup_insert_ne by congruence.
Qed.


(** C7 (as amended).  Decoding never fails.  A display field that is
    missing or does not hold a scalar string decodes to WORST_VITALS; a
    display field holding a string decodes to that string as it is, whether
    or not it is a known mode.  The vital is LCP when no vital name, or an
    empty one, reaches the view; any other vital name is used as it is. *)
Theorem display_and_vital_decoding (location : Location) totalEventsCount :
  (is_scalar (field (query location) "display") = false ->
   display_of location = DisplayModes.WORST_VITALS
   /\ selected (VitalDetailContent LCP widgetTitle location None totalEventsCount)
      = DisplayModes.WORST_VITALS)
  /\ (forall s,
        field (query location) "display" = QString s ->
        display_of location = s
        /\ selected (VitalDetailContent LCP widgetTitle location None totalEventsCount)
           = s)
  /\ vital_of LCP None = LCP
  /\ vital_of LCP (Some ""%string) = LCP
  /\ (forall v, v <> ""%string -> vital_of LCP (Some v) = v)
  /\ vitalInfo (VitalDetailContent LCP widgetTitle location None totalEventsCount)
     = LCP.
Proof.
  split; [|split; [|split; [|split; [|split]]]]; try reflexivity.
  - intros Hd.
    assert (Hdisplay : display_of location = DisplayModes.WORST_VITALS).
    { unfold display_of. destruct (field (query location) "display");
        simpl in *; congruence. }
    split; [exact Hdisplay|].
    unfold VitalDetailContent, renderContent. cbn [selected]. exact Hdisplay.
  - intros s Hs.
    assert (Hdisplay : display_of location = s).
    { unfold display_of. now rewrite Hs. }
    split; [exact Hdisplay|].
    unfold VitalDetailContent, renderContent. cbn [selected]. exact Hdisplay.
  - intros v Hv. unfold vital_of.
    destruct (String.eqb_spec v ""); [contradiction|reflexivity].
Qed.
End VitalDetailClaims.

(** A page-two URL of the worst-vitals display; the user picks P75.  The
    pushed query map still carries the cursor. *)
Lemma display_change_keeps_cursor :
  exists q',
    VitalDetail.pushed
      (VitalDetail.handleDisplayChange
         {| VitalDetail.pathname := "/performance/vitaldetail/";
            VitalDetail.query :=
              {[ "display"%string := VitalDetail.QString "Worst Vitals";
                 "cursor"%string := VitalDetail.QString "0:10:0" ]} |}
         "P75") = Some q'
    /\ VitalDetail.field q' "cursor" = VitalDetail.QString "0:10:0"
    /\ VitalDetail.field q' "cursor" <> VitalDetail.QUndefined.
Proof.
  eexists. split; [reflexivity|]. split; [vm_compute; reflexivity|].
  vm_compute. discriminate.
Qed.

(** Two selections that differ only in the display mode: the transition
    between them leaves the cursor entry in place instead of resetting it. *)
Lemma display_transition_does_not_reset_cursor :
  exists q',
    VitalDetail.pushed
      (VitalDetail.handleDisplayChange
         {| VitalDetail.pathname := "/performance/vitaldetail/";
            VitalDetail.query :=
              {[ "vitalName"%string := VitalDetail.QString "measurements.lcp";
                 "cursor"%string := VitalDetail.QString "0:50:0" ]} |}
         "P75") = Some q'
    /\ VitalDetail.field q' "display" = VitalDetail.QString "P75"
    /\ q' !! "cursor"%string = Some (VitalDetail.QString "0:50:0").
Proof.
  eexists. split; [reflexivity|]. split; vm_compute; reflexivity.
Qed.



(** An unknown display value in the URL is not replaced by the default. *)
Lemma unknown_display_is_not_defaulted :
  ~ In "garbage"%string VitalDetail.DisplayModes.known
  /\ VitalDetail.display_of
       {| VitalDetail.pathname := "/performance/vitaldetail/";
          VitalDetail.query := {[ "display"%string := VitalDetail.QString "garbage" ]} |}
     = "garbage"%string
  /\ "garbage"%string <> VitalDetail.DisplayModes.WORST_VITALS.
Proof.
  split; [simpl; intros [H|[H|[]]]; discriminate H|].
  split; [vm_compute; reflexivity|discriminate].
Qed.

(** ** SampleTable *)

Section SampleTableClaims.
Import SampleTable.
Variable SPAN_SELF_TIME : string.
Variable SPAN_OP : string.

Lemma first_error_present ss ts e :
  first_error ss ts = Some e ->
  present (sampleError ss) || present (transactionError ts) = true.
Proof.
  unfold first_error. destruct (sampleError ss); simpl; [reflexivity|].
  intros ->. reflexivity.
Qed.

Lemma keyBy_undefined : keyBy None = ∅.
Proof. reflexivity. Qed.

(** C4 (as amended).  When the samples slice or the transactions slice
    reports an error, the page error set is one fixed message, the same
    whatever the error was.  The rows are still built, one per sample and
    in order; each carries the op of the span metrics and what the keyed
    transactions object reads under the sample's transaction id.  When the
    transactions slice holds no data that read finds no transaction: it is
    undefined, except under an id that names a property of
    [Object.prototype], where it is the inherited property. *)
Theorem partial_failure_keeps_rows m ss ts e :
  first_error ss ts = Some e ->
  pageError (SampleTable SPAN_SELF_TIME SPAN_OP m ss ts)
    = Some (t "An error has occured while loading the samples table")
  /\ map sample (data (SampleTable SPAN_SELF_TIME SPAN_OP m ss ts)) = spans ss
  /\ (forall row, In row (data (SampleTable SPAN_SELF_TIME SPAN_OP m ss ts)) ->
        op row = spanMetrics m !! SPAN_OP
        /\ transaction row
           = get (keyBy (transactions ts)) (transaction_id (sample row)))
  /\ (transactions ts = None ->
      forall row, In row (data (SampleTable SPAN_SELF_TIME SPAN_OP m ss ts)) ->
        (forall tx, transaction row <> Own tx)
        /\ transaction row
           = if is_inherited (transaction_id (sample row))
             then Inherited (transaction_id (sample row))
             else Undefined).
Proof.
  intros He. unfold SampleTable. cbn [pageError data].
  rewrite (first_error_present _ _ _ He).
  assert (Hrows : forall row,
            In row (map (row_of SPAN_OP m (keyBy (transactions ts))) (spans ss)) ->
            op row = spanMetrics m !! SPAN_OP
            /\ transaction row
               = get (keyBy (transactions ts)) (transaction_id (sample row))).
  { intros row Hin. apply in_map_iff in Hin as (s & <- & _). split; reflexivity. }
  split; [reflexivity|]. split; [|split].
  - rewrite map_map. cbn [row_of sample]. apply map_id.
  - exact Hrows.
  - intros Hnone row Hin. destruct (Hrows row Hin) as [_ ->].
    rewrite Hnone, keyBy_undefined. unfold get. rewrite lookup_empty.
    split; [|reflexivity].
    intros tx. destruct (is_inherited (transaction_id (sample row))); discriminate.
Qed.
End SampleTableClaims.

(** The samples are ready, the transactions request failed with its own
    error: the page error set is not that error. *)
Lemma page_error_is_not_the_slice_error :
  SampleTable.first_error SampleTable.samples_ready SampleTable.transactions_failed
  = Some "504 Gateway Timeout"%string
  /\ SampleTable.pageError
       (SampleTable.SampleTable "span.self_time" "span.op"
          SampleTable.metrics_ready SampleTable.samples_ready
          SampleTable.transactions_failed)
     <> SampleTable.first_error SampleTable.samples_ready SampleTable.transactions_failed.
Proof. split; [reflexivity|]. vm_compute. discriminate. Qed.

Lemma partial_failure_keeps_rows_witness :
  SampleTable.first_error SampleTable.samples_ready SampleTable.transactions_failed
  = Some "504 Gateway Timeout"%string
  /\ SampleTable.pageError
       (SampleTable.SampleTable "span.self_time" "span.op"
          SampleTable.metrics_ready SampleTable.samples_ready
          SampleTable.transactions_failed)
     = Some (t "An error has occured while loading the samples table")
  /\ map SampleTable.sample
       (SampleTable.data
          (SampleTable.SampleTable "span.self_time" "span.op"
             SampleTable.metrics_ready SampleTable.samples_ready
             SampleTable.transactions_failed))
     = SampleTable.spans SampleTable.samples_ready.
Proof.
  split; [reflexivity|].
  destruct (partial_failure_keeps_rows "span.self_time" "span.op"
              SampleTable.metrics_ready SampleTable.samples_ready
              SampleTable.transactions_failed "504 Gateway Timeout"%string eq_refl)
    as (Herr & Hrows & _).
  split; [exact Herr | exact Hrows].
Defined.

(** ** Stale-response suppression *)

Section JoinerClaims.
Import DataJoiner.
Context {Selection Slice Data : Type}.
Context `{EqDecision Selection} `{EqDecision Slice}.
Variable slices : list Slice.
Implicit Types (st : @State Selection Slice Data) (ev : @Event Selection Slice Data).

Lemma init_tagged s : tagged_for_current (init slices s : @State Selection Slice Data).
Proof. intros x tag d Hv. discriminate Hv. Qed.

Lemma step_tagged st ev :
  tagged_for_current st -> tagged_for_current (step slices st ev).
Proof.
  intros Hst. destruct ev as [s|slice|tag slice result]; simpl.
  - destruct (decide (s = current st)); [exact Hst|].
    intros x tag d Hv. discriminate Hv.
  - exact Hst.
  - intros x tag' d. simpl.
    destruct (decide (tag = current st)) as [Heq|]; [|apply Hst].
    destruct (decide (x = slice)); [|apply Hst].
    intros [= <- _]. exact Heq.
Qed.

Lemma run_tagged events : forall st,
  tagged_for_current st -> tagged_for_current (run slices st events).
Proof.
  induction events as [|ev rest IH]; intros st Hst; [exact Hst|].
  apply IH, step_tagged, Hst.
Qed.

Lemma run_app st (a b : list (@Event Selection Slice Data)) :
  run slices st (a ++ b) = run slices (run slices st a) b.
Proof. apply fold_left_app. Qed.

(** The next observable state depends on the observable state only, not on
    which fetches are in flight. *)
Lemma step_observable st1 st2 ev :
  observable st1 = observable st2 ->
  observable (step slices st1 ev) = observable (step slices st2 ev).
Proof.
  destruct st1 as [c1 i1 v1], st2 as [c2 i2 v2]. unfold observable. simpl.
  intros [= -> ->].
  destruct ev as [s|slice|tag slice result]; simpl.
  - destruct (decide (s = c2)); reflexivity.
  - reflexivity.
  - reflexivity.
Qed.

Lemma run_observable events : forall st1 st2,
  observable st1 = observable st2 ->
  observable (run slices st1 events) = observable (run slices st2 events).
Proof.
  induction events as [|ev rest IH]; intros st1 st2 Hobs; [exact Hobs|].
  apply IH, step_observable, Hobs.
Qed.

Lemma stale_step st tag slice (d : Data) :
  tag <> current st ->
  observable (step slices st (FetchCompleted tag slice d)) = observable st.
Proof.
  intros Hne. unfold observable. simpl.
  destruct (decide (tag = current st)); [contradiction|reflexivity].
Qed.

(** A completion for the current selection is applied. *)
Lemma current_step st slice (d : Data) :
  visible (step slices st (FetchCompleted (current st) slice d)) slice
  = Some (current st, d).
Proof.
  simpl. destruct (decide (current st = current st)); [|contradiction].
  destruct (decide (slice = slice)); [reflexivity|contradiction].
Qed.

(** C5.  A fetch tagged with selection [s1] that completes when the current
    selection is another one is not applied: what is visible after the
    completion is what was visible before it, every later visible state is
    what it would have been had the completion never arrived, and along the
    whole event sequence whatever is visible was fetched for the selection
    then current. *)
Theorem stale_completion_is_discarded (s0 : Selection)
    (events : list (@Event Selection Slice Data)) (s1 : Selection)
    (slice : Slice) (d : Data) (later : list (@Event Selection Slice Data)) :
  s1 <> current (run slices (init slices s0) events) ->
  observable (step slices (run slices (init slices s0) events)
                (FetchCompleted s1 slice d))
    = observable (run slices (init slices s0) events)
  /\ observable
       (run slices (init slices s0) (events ++ FetchCompleted s1 slice d :: later))
     = observable (run slices (init slices s0) (events ++ later))
  /\ tagged_for_current
       (run slices (init slices s0) (events ++ FetchCompleted s1 slice d :: later)).
Proof.
  intros Hstale. split; [|split].
  - now apply stale_step.
  - rewrite !run_app. cbn [run fold_left].
    apply run_observable, stale_step, Hstale.
  - apply run_tagged, init_tagged.
Qed.
End JoinerClaims.

(** The table was opened for GET, the user switched to POST, and then the
    samples fetched for GET arrive. *)
Lemma stale_completion_is_discarded_witness :
  DataJoiner.GET_users
    <> DataJoiner.current
         (DataJoiner.run DataJoiner.table_slices
            (DataJoiner.init DataJoiner.table_slices DataJoiner.GET_users)
            [DataJoiner.SelectionChanged (Data := SampleTable.SpanSamples)
               DataJoiner.POST_users])
  /\ DataJoiner.observable
       (DataJoiner.run DataJoiner.table_slices
          (DataJoiner.init DataJoiner.table_slices DataJoiner.GET_users)
          ([DataJoiner.SelectionChanged DataJoiner.POST_users]
             ++ DataJoiner.FetchCompleted DataJoiner.GET_users
                  DataJoiner.SpanSamplesSlice SampleTable.samples_ready :: []))
     = DataJoiner.observable
         (DataJoiner.run DataJoiner.table_slices
            (DataJoiner.init DataJoiner.table_slices DataJoiner.GET_users)
            ([DataJoiner.SelectionChanged DataJoiner.POST_users] ++ [])).
Proof.
  assert (H : DataJoiner.GET_users
              <> DataJoiner.current
                   (DataJoiner.run DataJoiner.table_slices
                      (DataJoiner.init DataJoiner.table_slices DataJoiner.GET_users)
                      [DataJoiner.SelectionChanged (Data := SampleTable.SpanSamples)
                         DataJoiner.POST_users]))
    by (vm_compute; discriminate).
  split; [exact H|].
  exact (proj1 (proj2 (stale_completion_is_discarded DataJoiner.table_slices
                         DataJoiner.GET_users
                         [DataJoiner.SelectionChanged DataJoiner.POST_users]
                         DataJoiner.GET_users DataJoiner.SpanSamplesSlice
                         SampleTable.samples_ready [] H))).
Defined.

(** ** More on the accordion *)

Section AccordionSequence.
Import Accordion Sequencing.
Context {W H ReactNode : Type}.
Implicit Types (items : list (Item.t W ReactNode)) (f : Z -> H) (e : Z).

Lemma array_map_world e f b items : forall k w,
  snd (array_map (itemElement e f b) items k w) = run_renderers items w.
Proof.
  induction items as [|a rest IH]; intros k w; [reflexivity|].
  rewrite array_map_cons, itemElement_run. cbn [run_renderers].
  destruct (Item.content a w) as [c w1]. cbn [snd].
  destruct (Item.header a w1) as [h w2]. cbn [snd].
  specialize (IH (S k) w2).
  destruct (array_map (itemElement e f b) rest (S k) w2) as [xs w3].
  exact IH.
Qed.

Lemma array_map_nodes e f b items : forall k w i item,
  items !! i = Some item ->
  exists p,
    fst (array_map (itemElement e f b) items k w) !! i = Some p
    /\ ItemProps.content p
       = fst (Item.content item (run_renderers (take i items) w))
    /\ ItemProps.children p
       = fst (Item.header item
                (snd (Item.content item (run_renderers (take i items) w)))).
Proof.
  induction items as [|a rest IH]; intros k w i item Hi; [discriminate Hi|].
  rewrite array_map_cons, itemElement_run.
  destruct i as [|i].
  - injection Hi as ->. cbn [take run_renderers].
    destruct (Item.content item w) as [c w1]. cbn [snd fst].
    destruct (Item.header item w1) as [h w2]. cbn [fst].
    destruct (array_map (itemElement e f b) rest (S k) w2) as [xs w3].
    eexists. split; [reflexivity|]. split; reflexivity.
  - cbn [take run_renderers]. simpl in Hi.
    destruct (Item.content a w) as [c w1]. cbn [snd].
    destruct (Item.header a w1) as [h w2]. cbn [snd].
    destruct (IH (S k) w2 i item Hi) as (p & Hp & Hc & Hh).
    destruct (array_map (itemElement e f b) rest (S k) w2) as [xs w3].
    exists p. split; [exact Hp|]. split; assumption.
Qed.

(** X1.  The renderers compose as a sequence: the content of the item at
    position [i] is what its content renderer returns in the world left by
    the renderers of the items before it, its header what the header
    renderer returns right after, and the world after the render is the
    world after all of them.  None of this depends on the expanded index,
    the setter or the layout. *)
Theorem renderers_run_in_sequence e f items b w :
  snd (Accordion e f items b w) = run_renderers items w
  /\ forall i item,
       items !! i = Some item ->
       exists p,
         fst (Accordion e f items b w) !! i = Some p
         /\ ItemProps.content p
            = fst (Item.content item (run_renderers (take i items) w))
         /\ ItemProps.children p
            = fst (Item.header item
                     (snd (Item.content item (run_renderers (take i items) w)))).
Proof.
  split.
  - apply array_map_world.
  - intros i item Hi. now apply array_map_nodes.
Qed.

End AccordionSequence.

(** Counting renderers: after a render of two items each counter stands at
    two, and the second item's nodes were computed after the first's. *)
Lemma renderers_run_in_sequence_witness :
  snd (Accordion.Accordion 1 Accordion.useState_setter
         [Sequencing.counting_item "c0" "h0"; Sequencing.counting_item "c1" "h1"]
         None (0%nat, 0%nat))
  = (2%nat, 2%nat).
Proof.
  rewrite (proj1 (renderers_run_in_sequence 1 Accordion.useState_setter
                    [Sequencing.counting_item "c0" "h0";
                     Sequencing.counting_item "c1" "h1"] None (0%nat, 0%nat))).
  reflexivity.
Defined.


(** ** More on the avatar *)

Section AvatarFirstMatch.
Import Avatar.

Lemma find_first_match c (before : list AvatarDetails) a later :
  (forall x, In x before -> color x <> Some c) ->
  color a = Some c ->
  find (same_color c) (before ++ a :: later) = Some a.
Proof.
  intros Hno Ha. induction before as [|x before IH]; simpl.
  - now rewrite (proj2 (same_color_true c a) Ha).
  - destruct (same_color c x) eqn:Hx.
    + apply same_color_true in Hx. exfalso. apply (Hno x); simpl; auto.
    + apply IH. intros y Hy. apply Hno. simpl. auto.
Qed.

(** X3.  Only the first avatar with the colour flag asked for counts: avatars of
    the other colour before it and any avatar after it, whatever its type or
    colour, leave the result what it is for that avatar alone. *)
Theorem first_avatar_of_color_decides window isColor isDefault props
    appName (before : list AvatarDetails) a later :
  (forall x, In x before -> color x <> Some (default true isColor)) ->
  color a = Some (default true isColor) ->
  SentryAppAvatar window isColor
    (Some {| name := appName; avatars := Some (before ++ a :: later) |})
    isDefault props
  = SentryAppAvatar window isColor
      (Some {| name := appName; avatars := Some [a] |})
      isDefault props.
Proof.
  intros Hno Ha. unfold SentryAppAvatar, find_avatar. cbn [avatars].
  rewrite (find_first_match _ _ _ later Hno Ha).
  pose proof (find_first_match _ [] a []
                (fun x (Hx : In x []) => match Hx with end) Ha) as Halone.
  cbn [app] in Halone. rewrite Halone. reflexivity.
Qed.
End AvatarFirstMatch.

Lemma first_avatar_of_color_decides_witness :
  (forall x,
      In x [ {| Avatar.avatarType := "upload"; Avatar.avatarUuid := Some "bw"%string;
                Avatar.color := Some false |} ] ->
      Avatar.color x <> Some (default true None))
  /\ Avatar.SentryAppAvatar None None
       (Some {| Avatar.name := "app";
                Avatar.avatars :=
                  Some ([ {| Avatar.avatarType := "upload";
                             Avatar.avatarUuid := Some "bw"%string;
                             Avatar.color := Some false |} ]
                        ++ {| Avatar.avatarType := "default";
                              Avatar.avatarUuid := None;
                              Avatar.color := Some true |}
                        :: [ {| Avatar.avatarType := "upload";
                                Avatar.avatarUuid := Some "late"%string;
                                Avatar.color := Some true |} ]) |})
       None {| Avatar.size := Some 20; Avatar.className := None |}
     = Avatar.IconGeneric "20" None "default-sentry-app-avatar".
Proof.
  assert (Hno : forall x,
             In x [ {| Avatar.avatarType := "upload";
                       Avatar.avatarUuid := Some "bw"%string;
                       Avatar.color := Some false |} ] ->
             Avatar.color x <> Some (default true None)).
  { intros x [<-|[]]. simpl. discriminate. }
  split; [exact Hno|].
  rewrite (first_avatar_of_color_decides None None None
             {| Avatar.size := Some 20; Avatar.className := None |} "app"
             [ {| Avatar.avatarType := "upload"; Avatar.avatarUuid := Some "bw"%string;
                  Avatar.color := Some false |} ]
             {| Avatar.avatarType := "default"; Avatar.avatarUuid := None;
                Avatar.color := Some true |}
             [ {| Avatar.avatarType := "upload"; Avatar.avatarUuid := Some "late"%string;
                  Avatar.color := Some true |} ]
             Hno eq_refl).
  reflexivity.
Defined.

(** ** More on the vital-detail view *)

Section VitalPageFacts.
Import VitalDetail VitalPage.
Variables FCP LCP FID CLS : WebVital.
Variable vitalAbbreviations : gmap string string.
Variable vitalMap : gmap string string.
Variable vitalDescription : gmap string string.
Variable vitalSupportedBrowsers : gmap string (list string).
Variable Browser : list string.
Variable widgetTitle : WebVital -> string.

Lemma indexOf_from_absent l v : forall from,
  0 <= from ->
  (indexOf_from l v from = -1 <-> forall x, In x l -> strict_eq v x = false)
  /\ (indexOf_from l v from = -1 \/ from <= indexOf_from l v from).
Proof.
  induction l as [|x rest IH]; intros from Hfrom; simpl.
  - split; [|auto]. split; [intros _ y []|reflexivity].
  - destruct (strict_eq v x) eqn:Hx.
    + split; [|right; lia]. split; [lia|].
      intros Hall. rewrite (Hall x) in Hx by auto. discriminate.
    + destruct (IH (from + 1) ltac:(lia)) as [Hiff Hge]. split.
      * rewrite Hiff. split.
        -- intros Hall y [<-|Hy]; auto.
        -- intros Hall y Hy. apply Hall. auto.
      * destruct Hge; [auto|right; lia].
Qed.

Lemma indexOf_negative (l : list WebVital) vitalName :
  (indexOf l vitalName <? 0) = true
  <-> forall v, vitalName = Some v -> ~ In v l.
Proof.
  unfold indexOf.
  destruct (indexOf_from_absent l vitalName 0 ltac:(lia)) as [Hiff Hge].
  rewrite Z.ltb_lt. split.
  - intros Hneg.
    assert (Habs : forall x, In x l -> strict_eq vitalName x = false)
      by (apply Hiff; lia).
    intros v -> Hin. specialize (Habs v Hin). simpl in Habs.
    now rewrite String.eqb_refl in Habs.
  - intros Hnot.
    assert (Hidx : indexOf_from l vitalName 0 = -1); [|lia].
    apply Hiff. intros x Hin. destruct vitalName as [v|]; [|reflexivity].
    simpl. apply String.eqb_neq. intros ->. now apply (Hnot x).
Qed.

(** X4.  The switcher is left out exactly when the vital name is not one of
    the four front-end vitals; a missing vital name is such a case. *)
Theorem switcher_only_for_frontend_vitals location vitalName :
  renderVitalSwitcher FCP LCP FID CLS vitalAbbreviations location vitalName = None
  <-> forall v, vitalName = Some v -> ~ In v (FRONTEND_VITALS FCP LCP FID CLS).
Proof.
  rewrite <- indexOf_negative. unfold renderVitalSwitcher.
  destruct (indexOf (FRONTEND_VITALS FCP LCP FID CLS) vitalName <? 0);
    split; intros Hx; try reflexivity; discriminate Hx.
Qed.

Lemma menu_items_fold location vitalName vitals : forall acc,
  fold_left (reducer vitalAbbreviations location vitalName) vitals acc
  = rev (map (itemProps vitalAbbreviations location vitalName)
           (List.filter (strict_eq vitalName) vitals))
    ++ acc
    ++ map (itemProps vitalAbbreviations location vitalName)
         (List.filter (fun x => negb (strict_eq vitalName x)) vitals).
Proof.
  induction vitals as [|x rest IH]; intros acc; simpl.
  - now rewrite app_nil_r.
  - rewrite IH. unfold reducer.
    destruct (strict_eq vitalName x); simpl.
    + now rewrite <- !app_assoc.
    + now rewrite <- !app_assoc.
Qed.

Lemma filter_eq_NoDup v (l : list WebVital) :
  List.NoDup l -> In v l -> List.filter (strict_eq (Some v)) l = [v].
Proof.
  induction 1 as [|x l Hx Hnd IH]; intros Hin; [destruct Hin|].
  simpl. destruct (String.eqb_spec v x) as [<-|Hne].
  - f_equal. clear IH Hin. induction l as [|y l IHl]; [reflexivity|].
    simpl. destruct (String.eqb_spec v y) as [<-|_].
    + exfalso. apply Hx. simpl. auto.
    + apply IHl.
      * intros Hin. apply Hx. simpl. auto.
      * now inversion Hnd.
  - destruct Hin as [->|Hin]; [contradiction|]. now apply IH.
Qed.

Lemma filter_ne_absent v (l : list WebVital) :
  ~ In v l -> List.filter (fun x => negb (String.eqb v x)) l = l.
Proof.
  induction l as [|y l IH]; intros Hv; [reflexivity|].
  simpl. destruct (String.eqb_spec v y) as [->|_]; simpl.
  - exfalso. apply Hv. simpl. auto.
  - f_equal. apply IH. intros Hin. apply Hv. simpl. auto.
Qed.

Lemma current_first_Permutation v (l : list WebVital) :
  List.NoDup l -> In v l ->
  Permutation (v :: List.filter (fun x => negb (String.eqb v x)) l) l.
Proof.
  induction 1 as [|x l Hx Hnd IH]; intros Hin; [destruct Hin|].
  simpl. destruct (String.eqb_spec v x) as [<-|Hne]; simpl.
  - now rewrite filter_ne_absent.
  - destruct Hin as [->|Hin]; [contradiction|].
    etransitivity; [apply perm_swap|]. constructor. now apply IH.
Qed.

(** X5.  The menu of the switcher lists the current vital first and the other
    front-end vitals after it in their declared order: every vital once. *)
Theorem switcher_lists_current_vital_first location v :
  List.NoDup (FRONTEND_VITALS FCP LCP FID CLS) ->
  In v (FRONTEND_VITALS FCP LCP FID CLS) ->
  exists menu,
    renderVitalSwitcher FCP LCP FID CLS vitalAbbreviations location (Some v)
      = Some menu
    /\ map key (items menu)
       = v :: List.filter (fun x => negb (String.eqb v x)) (FRONTEND_VITALS FCP LCP FID CLS)
    /\ Permutation (map key (items menu)) (FRONTEND_VITALS FCP LCP FID CLS).
Proof.
  intros Hnd Hin.
  destruct (renderVitalSwitcher FCP LCP FID CLS vitalAbbreviations location (Some v))
    as [menu|] eqn:Hr.
  - exists menu. split; [reflexivity|].
    unfold renderVitalSwitcher in Hr.
    destruct (_ <? 0); [discriminate|]. injection Hr as <-. cbn [items].
    unfold menu_items. rewrite menu_items_fold, app_nil_l.
    rewrite (filter_eq_NoDup _ _ Hnd Hin). cbn [map rev app].
    rewrite map_map. cbn [itemProps key]. rewrite map_id.
    split; [reflexivity|]. now apply current_first_Permutation.
  - exfalso. unfold renderVitalSwitcher in Hr.
    destruct (indexOf (FRONTEND_VITALS FCP LCP FID CLS) (Some v) <? 0) eqn:Hneg;
      [|discriminate Hr].
    apply (proj1 (indexOf_negative _ _) Hneg v eq_refl Hin).
Qed.
End VitalPageFacts.

Section VitalPageMore.
Import VitalDetail VitalPage.
Variables FCP LCP FID CLS : WebVital.
Variable vitalAbbreviations : gmap string string.
Variable vitalMap : gmap string string.
Variable vitalDescription : gmap string string.
Variable vitalSupportedBrowsers : gmap string (list string).
Variable Browser : list string.
Variable widgetTitle : WebVital -> string.

Lemma menu_items_member location vitalName vitals m :
  In m (menu_items vitalAbbreviations location vitalName vitals) ->
  exists x, In x vitals /\ m = itemProps vitalAbbreviations location vitalName x.
Proof.
  unfold menu_items. rewrite menu_items_fold, app_nil_l.
  rewrite in_app_iff, <- in_rev, !in_map_iff.
  intros [(x & <- & Hx)|(x & <- & Hx)]; apply filter_In in Hx as [Hx _]; eauto.
Qed.

(** X6.  Every entry of the switcher's menu stands for one front-end vital, named
    by its key: choosing it pushes a query in which [vitalName] is that key
    and the cursor is undefined, every other parameter kept. *)
Theorem menu_entry_switches_to_its_vital location vitalName menu m :
  renderVitalSwitcher FCP LCP FID CLS vitalAbbreviations location vitalName = Some menu ->
  In m (items menu) ->
  In (key m) (FRONTEND_VITALS FCP LCP FID CLS)
  /\ label m = vitalAbbreviations !! key m
  /\ exists q',
       pushed (onAction m) = Some q'
       /\ field q' "vitalName" = QString (key m)
       /\ field q' "cursor" = QUndefined
       /\ forall k, k <> "vitalName"%string -> k <> "cursor"%string ->
            q' !! k = query location !! k.
Proof.
  unfold renderVitalSwitcher. destruct (_ <? 0); [discriminate|].
  intros [= <-] Hm. cbn [items] in Hm.
  apply menu_items_member in Hm as (x & Hx & ->). cbn [itemProps key label onAction].
  split; [exact Hx|]. split; [reflexivity|].
  eexists. split; [reflexivity|]. split; [|split].
  - unfold field. rewrite lookup_insert_ne by discriminate.
    now rewrite lookup_insert_eq.
  - unfold field. now rewrite lookup_insert_eq.
  - intros k Hv Hc. rewrite lookup_insert_ne by congruence.
    now rewrite lookup_insert_ne by congruence.
Qed.

(** X7.  When no vital name reaches the view, the content and the title are
    those of LCP, but the description and the browser list are looked up
    under the missing name: unless the tables have an entry named
    'undefined', the description is empty, every browser is shown as not
    supported, and there is no switcher. *)
Theorem missing_vital_name_header location :
  vitalDescription !! "undefined"%string = None ->
  vitalSupportedBrowsers !! "undefined"%string = None ->
  pageTitle vitalMap (vital_of LCP None) = vitalMap !! LCP
  /\ description vitalDescription None = None
  /\ supportedBrowsers vitalSupportedBrowsers Browser None
     = map (fun browser => (IconClose, browser)) Browser
  /\ renderVitalSwitcher FCP LCP FID CLS vitalAbbreviations location None = None.
Proof.
  intros Hd Hb. split; [reflexivity|]. split; [exact Hd|]. split.
  - unfold supportedBrowsers, supports. cbn [property_key default].
    now rewrite Hb.
  - unfold renderVitalSwitcher.
    rewrite (proj2 (indexOf_negative (FRONTEND_VITALS FCP LCP FID CLS) None));
      [reflexivity|].
    intros v Hv. discriminate Hv.
Qed.

(** X8.  Display changes compose by last write: choosing a display mode and then
    another one leaves the location the second choice alone would have
    given; choosing the same mode twice changes nothing the second time. *)
Theorem display_change_last_wins location v1 v2 :
  after (after location (handleDisplayChange location v1))
        (handleDisplayChange (after location (handleDisplayChange location v1)) v2)
  = after location (handleDisplayChange location v2).
Proof.
  unfold after, handleDisplayChange. cbn [pushed pathname query].
  now rewrite insert_insert_eq.
Qed.

(** X9.  A display change and a switch of vital commute: in either order the
    location ends with the same query, the new display, the new vital name
    and an undefined cursor. *)
Theorem display_and_vital_commute location vitalName v newVitalName :
  query (after (after location (handleDisplayChange location v))
               (switchWebVital vitalAbbreviations
                  (after location (handleDisplayChange location v))
                  vitalName newVitalName))
  = query (after (after location
                    (switchWebVital vitalAbbreviations location vitalName newVitalName))
                 (handleDisplayChange
                    (after location
                       (switchWebVital vitalAbbreviations location vitalName
                          newVitalName)) v)).
Proof.
  unfold after, handleDisplayChange, switchWebVital. cbn [pushed pathname query].
  rewrite (insert_insert_ne _ "display"%string "cursor"%string) by discriminate.
  rewrite (insert_insert_ne _ "display"%string "vitalName"%string) by discriminate.
  reflexivity.
Qed.

End VitalPageMore.

Lemma switcher_lists_current_vital_first_witness :
  List.NoDup (VitalPage.FRONTEND_VITALS "measurements.fcp" "measurements.lcp"
                "measurements.fid" "measurements.cls")
  /\ In "measurements.fid"%string
        (VitalPage.FRONTEND_VITALS "measurements.fcp" "measurements.lcp"
           "measurements.fid" "measurements.cls")
  /\ exists menu,
       VitalPage.renderVitalSwitcher "measurements.fcp" "measurements.lcp"
         "measurements.fid" "measurements.cls" Samples.abbreviations
         Samples.page_two (Some "measurements.fid"%string) = Some menu
       /\ map VitalPage.key (VitalPage.items menu)
          = ["measurements.fid"%string; "measurements.fcp"%string;
             "measurements.lcp"%string; "measurements.cls"%string].
Proof.
  assert (Hnd : List.NoDup (VitalPage.FRONTEND_VITALS "measurements.fcp"
                              "measurements.lcp" "measurements.fid"
                              "measurements.cls")).
  { unfold VitalPage.FRONTEND_VITALS.
    repeat constructor; simpl; intuition discriminate. }
  assert (Hin : In "measurements.fid"%string
                  (VitalPage.FRONTEND_VITALS "measurements.fcp" "measurements.lcp"
                     "measurements.fid" "measurements.cls")).
  { simpl. auto. }
  split; [exact Hnd|]. split; [exact Hin|].
  destruct (switcher_lists_current_vital_first "measurements.fcp" "measurements.lcp"
              "measurements.fid" "measurements.cls" Samples.abbreviations
              Samples.page_two "measurements.fid" Hnd Hin) as (menu & Hr & Hk & _).
  exists menu. split; [exact Hr|]. rewrite Hk. reflexivity.
Defined.

Lemma menu_entry_switches_to_its_vital_witness :
  exists menu m,
    VitalPage.renderVitalSwitcher "measurements.fcp" "measurements.lcp"
      "measurements.fid" "measurements.cls" Samples.abbreviations
      Samples.page_two (Some "measurements.lcp"%string) = Some menu
    /\ In m (VitalPage.items menu)
    /\ VitalPage.label m = Samples.abbreviations !! VitalPage.key m.
Proof.
  eexists _, _. split; [reflexivity|]. split; [right; left; reflexivity|].
  exact (proj1 (proj2 (menu_entry_switches_to_its_vital "measurements.fcp"
                         "measurements.lcp" "measurements.fid" "measurements.cls"
                         Samples.abbreviations Samples.page_two
                         (Some "measurements.lcp"%string) _ _ eq_refl
                         (or_intror (or_introl eq_refl))))).
Defined.

Lemma missing_vital_name_header_witness :
  Samples.descriptions !! "undefined"%string = None
  /\ Samples.browsers_of !! "undefined"%string = None
  /\ VitalPage.pageTitle Samples.titles (VitalDetail.vital_of "measurements.lcp" None)
     = Some "Largest Contentful Paint"%string
  /\ VitalPage.supportedBrowsers Samples.browsers_of Samples.browsers None
     = map (fun browser => (VitalPage.IconClose, browser)) Samples.browsers.
Proof.
  assert (Hd : Samples.descriptions !! "undefined"%string = None) by reflexivity.
  assert (Hb : Samples.browsers_of !! "undefined"%string = None) by reflexivity.
  split; [exact Hd|]. split; [exact Hb|].
  destruct (missing_vital_name_header "measurements.fcp" "measurements.lcp"
              "measurements.fid" "measurements.cls" Samples.abbreviations
              Samples.titles Samples.descriptions Samples.browsers_of
              Samples.browsers Samples.page_two Hd Hb) as (Ht & _ & Hbr & _).
  split; [rewrite Ht; reflexivity | exact Hbr].
Defined.

(** ** More on the sample table *)

Section SampleTableMore.
Import SampleTable SamplesLoaded.
Variable SPAN_SELF_TIME : string.
Variable SPAN_OP : string.

Lemma fold_keyed_absent (l : list Transaction) : forall (m : gmap string Transaction) k,
  (forall y, In y l -> id y <> k) ->
  fold_left (fun m tx => <[id tx := tx]> m) l m !! k = m !! k.
Proof.
  induction l as [|x l IH]; intros m k Hno; [reflexivity|].
  simpl. rewrite IH by (intros y Hy; apply Hno; simpl; auto).
  apply lookup_insert_ne. apply Hno. simpl. auto.
Qed.

Lemma fold_keyed_sound (l : list Transaction) : forall (m : gmap string Transaction) k tx,
  fold_left (fun m tx => <[id tx := tx]> m) l m !! k = Some tx ->
  (In tx l /\ id tx = k) \/ m !! k = Some tx.
Proof.
  induction l as [|x l IH]; intros m k tx Hl; [auto|].
  simpl in Hl. apply IH in Hl as [[Hin Hid]|Hm].
  - left. simpl. auto.
  - destruct (decide (id x = k)) as [<-|Hne].
    + rewrite lookup_insert_eq in Hm. injection Hm as <-. left. simpl. auto.
    + rewrite lookup_insert_ne in Hm by exact Hne. auto.
Qed.

Lemma keyBy_Some (l : list Transaction) :
  keyBy (Some l) = fold_left (fun m tx => <[id tx := tx]> m) l ∅.
Proof. reflexivity. Qed.

Lemma keyBy_last (before : list Transaction) tx later :
  (forall y, In y later -> id y <> id tx) ->
  keyBy (Some (before ++ tx :: later)) !! id tx = Some tx.
Proof.
  intros Hno. rewrite keyBy_Some, fold_left_app. cbn [fold_left].
  rewrite fold_keyed_absent by exact Hno. apply lookup_insert_eq.
Qed.

Lemma last_with_id (l : list Transaction) k :
  (exists tx, In tx l /\ id tx = k) ->
  exists before last later,
    l = before ++ last :: later
    /\ id last = k
    /\ forall y, In y later -> id y <> k.
Proof.
  induction l as [|y l IH] using rev_ind; intros (tx & Hin & Hid); [destruct Hin|].
  destruct (decide (id y = k)) as [Hy|Hy].
  - exists l, y, []. split; [reflexivity|]. split; [exact Hy|]. intros z [].
  - apply in_app_iff in Hin as [Hin|[<-|[]]]; [|contradiction].
    destruct IH as (b & la & lt & -> & Hla & Hlt); [eauto|].
    exists b, la, (lt ++ [y]). split; [now rewrite <- app_assoc|].
    split; [exact Hla|]. intros z Hz.
    apply in_app_iff in Hz as [Hz|[<-|[]]]; auto.
Qed.

Lemma keyBy_None l k :
  keyBy l !! k = None <-> forall tx, In tx (default [] l) -> id tx <> k.
Proof.
  split.
  - intros Hnone tx Hin Hid.
    destruct (last_with_id (default [] l) k) as (b & la & lt & Hb & Hla & Hlt);
      [eauto|].
    assert (Hk : keyBy (Some (b ++ la :: lt)) !! id la = Some la).
    { apply keyBy_last. intros y Hy. rewrite Hla. now apply Hlt. }
    rewrite <- Hb, Hla in Hk.
    assert (Hsame : keyBy (Some (default [] l)) = keyBy l) by (destruct l; reflexivity).
    rewrite Hsame in Hk. congruence.
  - intros Hno. unfold keyBy. rewrite fold_keyed_absent by exact Hno.
    apply lookup_empty.
Qed.

Lemma get_Own (object : gmap string Transaction) key tx :
  get object key = Own tx <-> object !! key = Some tx.
Proof.
  unfold get. destruct (object !! key) as [tx'|].
  - split; intros [= ->]; reflexivity.
  - destruct (is_inherited key); split; discriminate.
Qed.

Lemma get_Undefined (object : gmap string Transaction) key :
  get object key = Undefined <-> object !! key = None /\ is_inherited key = false.
Proof.
  unfold get. destruct (object !! key) as [tx'|].
  - split; [discriminate|]. intros [Hn _]. discriminate Hn.
  - destruct (is_inherited key); split; try discriminate; auto.
    intros [_ Hi]. discriminate Hi.
Qed.

(** X11.  The join is by transaction id: a row carries a transaction only if
    that transaction is in the transactions slice under the row's own
    transaction id, and it carries one exactly when the slice has a
    transaction under that id.  When the slice has none, the row's
    transaction is undefined, except under an id that names a property of
    [Object.prototype]: there the keyed object hands back the inherited
    property. *)
Theorem join_is_by_transaction_id m ss ts row :
  In row (data (SampleTable SPAN_SELF_TIME SPAN_OP m ss ts)) ->
  In (sample row) (spans ss)
  /\ (forall tx, transaction row = Own tx ->
        id tx = transaction_id (sample row)
        /\ In tx (default [] (transactions ts)))
  /\ ((exists tx, transaction row = Own tx)
      <-> exists tx, In tx (default [] (transactions ts))
                     /\ id tx = transaction_id (sample row))
  /\ (transaction row = Undefined
      <-> (forall tx, In tx (default [] (transactions ts)) ->
             id tx <> transaction_id (sample row))
          /\ is_inherited (transaction_id (sample row)) = false)
  /\ (transaction row = Inherited (transaction_id (sample row))
      <-> (forall tx, In tx (default [] (transactions ts)) ->
             id tx <> transaction_id (sample row))
          /\ is_inherited (transaction_id (sample row)) = true).
Proof.
  unfold SampleTable. cbn [data]. intros Hin.
  apply in_map_iff in Hin as (s & <- & Hs). cbn [row_of sample transaction].
  pose proof (keyBy_None (transactions ts) (transaction_id s)) as Hnone.
  split; [exact Hs|]. split; [|split; [|split]].
  - intros tx Htx. apply get_Own in Htx. unfold keyBy in Htx.
    apply fold_keyed_sound in Htx as [[Hin Hid]|Hempty]; [auto|].
    rewrite lookup_empty in Hempty. discriminate.
  - split.
    + intros [tx Htx]. apply get_Own in Htx. exists tx. unfold keyBy in Htx.
      apply fold_keyed_sound in Htx as [[Hin Hid]|Hempty]; [auto|].
      rewrite lookup_empty in Hempty. discriminate.
    + intros (tx & Hin & Hid).
      destruct (keyBy (transactions ts) !! transaction_id s) as [tx'|] eqn:Hk.
      * exists tx'. now apply get_Own.
      * exfalso. apply (proj1 Hnone eq_refl tx Hin Hid).
  - rewrite get_Undefined, Hnone. reflexivity.
  - unfold get. rewrite <- Hnone.
    destruct (keyBy (transactions ts) !! transaction_id s) as [tx'|].
    + split; [discriminate|]. intros [Hn _]. discriminate Hn.
    + destruct (is_inherited (transaction_id s)); split; try discriminate; auto.
      intros [_ Hi]. discriminate Hi.
Qed.

(** X12.  When several transactions share an id, the row gets the last of
    them. *)
Theorem join_takes_the_last_duplicate m ss ts before tx later s :
  transactions ts = Some (before ++ tx :: later) ->
  (forall y, In y later -> id y <> id tx) ->
  In s (spans ss) ->
  transaction_id s = id tx ->
  In {| sample := s; op := spanMetrics m !! SPAN_OP; transaction := Own tx |}
     (data (SampleTable SPAN_SELF_TIME SPAN_OP m ss ts)).
Proof.
  intros Hts Hlater Hs Hid. unfold SampleTable. cbn [data].
  apply in_map_iff. exists s. split; [|exact Hs].
  unfold row_of. f_equal. rewrite Hts, Hid. apply get_Own. now apply keyBy_last.
Qed.

(** X13.  The table's shape follows the samples alone: one row per sample in
    order, data reported exactly when there is a row; and a page error is
    set exactly when the samples hook or the transactions hook hands back an
    error. *)
Theorem rows_follow_the_samples m ss ts :
  map sample (data (SampleTable SPAN_SELF_TIME SPAN_OP m ss ts)) = spans ss
  /\ (hasData (SampleTable SPAN_SELF_TIME SPAN_OP m ss ts) = true
      <-> data (SampleTable SPAN_SELF_TIME SPAN_OP m ss ts) <> [])
  /\ (pageError (SampleTable SPAN_SELF_TIME SPAN_OP m ss ts) = None
      <-> sampleError ss = None /\ transactionError ts = None).
Proof.
  unfold SampleTable. cbn [data hasData pageError]. split; [|split].
  - rewrite map_map. cbn [row_of sample]. apply map_id.
  - destruct (spans ss) as [|s l]; simpl; split.
    + discriminate.
    + intros Hne. now contradiction Hne.
    + intros _. discriminate.
    + reflexivity.
  - destruct (sampleError ss), (transactionError ts); simpl; split;
      try discriminate; try tauto; intros [? ?]; discriminate.
Qed.

(** X14.  The table stops loading exactly when the span metrics and the samples
    are no longer fetching, the samples query is enabled, and either there
    are no samples, or the transactions are not fetching, or the
    transactions query is enabled.  In particular an empty list of samples
    never waits for transactions. *)
Theorem loading_until_slices_settle m ss ts :
  isLoading (SampleTable SPAN_SELF_TIME SPAN_OP m ss ts) = false
  <-> isFetchingSpanMetrics m = false
      /\ isFetchingSamples ss = false
      /\ isSamplesEnabled ss = true
      /\ (spans ss = []
          \/ isFetchingTransactions ts = false
          \/ isTransactionsEnabled ts = true).
Proof.
  unfold SampleTable. cbn [isLoading].
  destruct (isFetchingSpanMetrics m), (isFetchingSamples ss), (isSamplesEnabled ss),
    (isFetchingTransactions ts), (isTransactionsEnabled ts), (spans ss) as [|s l];
    simpl; split; try discriminate; try tauto;
    intros (? & ? & ? & [?|[?|?]]); discriminate.
Qed.

Lemma effect_settles loaded ts :
  loaded_after loaded (effect loaded ts) = settled ts
  /\ length (List.filter is_track (effect loaded ts))
     = if settled ts && negb loaded then 1%nat else 0%nat.
Proof.
  unfold effect, settled.
  destruct (isLoadingTransactions ts || isFetchingTransactions ts
            || negb (isTransactionsEnabled ts)); simpl; [auto|].
  destruct loaded; simpl; auto.
Qed.

Lemma last_after_head {A} (l : list A) : forall x d,
  List.last (x :: l) d = List.last l x.
Proof.
  induction l as [|y l IH]; intros x d; [reflexivity|].
  change (List.last (x :: y :: l) d) with (List.last (y :: l) d).
  rewrite !IH. reflexivity.
Qed.

(** X15.  The analytics event for loaded samples is sent once per load: over any
    sequence of effect runs, the number of events sent is the number of
    times the transactions go from not settled to settled, and the state
    cell ends as the last run found the transactions. *)
Theorem samples_loaded_tracked_once_per_load renders : forall loaded,
  length (List.filter is_track (fst (effect_runs loaded renders)))
  = rising_edges loaded (map settled renders)
  /\ snd (effect_runs loaded renders) = List.last (map settled renders) loaded.
Proof.
  induction renders as [|ts rest IH]; intros loaded; [split; reflexivity|].
  cbn [effect_runs map rising_edges].
  destruct (effect_settles loaded ts) as [Hs Hn].
  specialize (IH (loaded_after loaded (effect loaded ts))).
  destruct (effect_runs (loaded_after loaded (effect loaded ts)) rest)
    as [later final]. cbn [fst snd] in *.
  destruct IH as [IHn IHf]. rewrite Hs in IHn, IHf. split.
  - rewrite List.filter_app, length_app, Hn, IHn. reflexivity.
  - rewrite IHf. symmetry. apply last_after_head.
Qed.
End SampleTableMore.

Lemma join_is_by_transaction_id_witness :
  exists row,
    In row (SampleTable.data
              (SampleTable.SampleTable "span.self_time" "span.op"
                 SampleTable.metrics_ready Samples.sample_named_constructor
                 (Samples.transactions_ready [Samples.only_t2])))
    /\ SampleTable.transaction row = SampleTable.Inherited "constructor"
    /\ (SampleTable.transaction row = SampleTable.Undefined
        <-> (forall tx, In tx [Samples.only_t2] ->
               SampleTable.id tx <> SampleTable.transaction_id (SampleTable.sample row))
            /\ SampleTable.is_inherited
                 (SampleTable.transaction_id (SampleTable.sample row)) = false).
Proof.
  eexists. split; [left; reflexivity|]. split; [reflexivity|].
  exact (proj1 (proj2 (proj2 (proj2
           (join_is_by_transaction_id "span.self_time" "span.op"
              SampleTable.metrics_ready Samples.sample_named_constructor
              (Samples.transactions_ready [Samples.only_t2]) _
              (or_introl eq_refl)))))).
Defined.

Lemma join_takes_the_last_duplicate_witness :
  (forall y, In y [Samples.only_t2] ->
     SampleTable.id y <> SampleTable.id Samples.second_t1)
  /\ In {| SampleTable.sample :=
             {| SampleTable.span_id := "a1"; SampleTable.transaction_id := "t1" |};
           SampleTable.op := Some "db"%string;
           SampleTable.transaction := SampleTable.Own Samples.second_t1 |}
        (SampleTable.data
           (SampleTable.SampleTable "span.self_time" "span.op"
              SampleTable.metrics_ready SampleTable.samples_ready
              (Samples.transactions_ready
                 [Samples.first_t1; Samples.second_t1; Samples.only_t2]))).
Proof.
  assert (Hlater : forall y, In y [Samples.only_t2] ->
                     SampleTable.id y <> SampleTable.id Samples.second_t1).
  { intros y [<-|[]]. simpl. discriminate. }
  split; [exact Hlater|].
  exact (join_takes_the_last_duplicate "span.self_time" "span.op"
           SampleTable.metrics_ready SampleTable.samples_ready
           (Samples.transactions_ready
              [Samples.first_t1; Samples.second_t1; Samples.only_t2])
           [Samples.first_t1] Samples.second_t1 [Samples.only_t2]
           {| SampleTable.span_id := "a1"; SampleTable.transaction_id := "t1" |}
           eq_refl Hlater (or_introl eq_refl) eq_refl).
Defined.

(** ** The migration script *)

Section MigrationStrings.
Import Migration MigrationNotions.

Lemma has_char_cons c x s :
  has_char c (String x s) = Ascii.eqb c x || has_char c s.
Proof. reflexivity. Qed.

Lemma has_char_app c a b :
  has_char c (a +:+ b) = has_char c a || has_char c b.
Proof.
  induction a as [|x a IH]; [reflexivity|].
  change (String x a +:+ b) with (String x (a +:+ b)).
  rewrite !has_char_cons, IH. now rewrite orb_assoc.
Qed.

Lemma split_zero sep s : split sep s 0 = [s].
Proof. destruct s; reflexivity. Qed.

Lemma split_absent sep s : forall maxsplit,
  has_char sep s = false -> split sep s maxsplit = [s].
Proof.
  induction s as [|x s IH]; intros maxsplit Hno; [reflexivity|].
  rewrite has_char_cons in Hno. apply orb_false_iff in Hno as [Hx Hs].
  destruct maxsplit as [|fewer]; [reflexivity|].
  cbn [split]. rewrite Ascii.eqb_sym, Hx. now rewrite (IH _ Hs).
Qed.

Lemma split_at_first sep a b : forall fewer,
  has_char sep a = false ->
  split sep (a +:+ String sep b) (S fewer) = a :: split sep b fewer.
Proof.
  induction a as [|x a IH]; intros fewer Hno.
  - change (EmptyString +:+ String sep b) with (String sep b).
    cbn [split]. now rewrite Ascii.eqb_refl.
  - rewrite has_char_cons in Hno. apply orb_false_iff in Hno as [Hx Ha].
    change (String x a +:+ String sep b) with (String x (a +:+ String sep b)).
    cbn [split]. rewrite Ascii.eqb_sym, Hx.
    now rewrite (IH _ Ha).
Qed.

(** A string either lacks the separator or splits at its first one. *)
Lemma first_separator sep s :
  has_char sep s = false
  \/ exists a b, s = a +:+ String sep b /\ has_char sep a = false.
Proof.
  induction s as [|x s IH]; [left; reflexivity|].
  destruct (Ascii.eqb_spec sep x) as [<-|Hne].
  - right. exists EmptyString, s. split; reflexivity.
  - destruct IH as [Hno|(a & b & -> & Ha)].
    + left. rewrite has_char_cons, Hno.
      now rewrite (proj2 (Ascii.eqb_neq sep x) Hne).
    + right. exists (String x a), b. split; [reflexivity|].
      rewrite has_char_cons, Ha. now rewrite (proj2 (Ascii.eqb_neq sep x) Hne).
Qed.

Lemma split_once_pair sep s x y :
  split sep s 1 = [x; y]
  <-> s = x +:+ String sep y /\ has_char sep x = false.
Proof.
  split.
  - destruct (first_separator sep s) as [Hno|(a & b & -> & Ha)].
    + rewrite (split_absent _ _ _ Hno). discriminate.
    + rewrite (split_at_first _ _ _ _ Ha), split_zero. intros [= <- <-]. auto.
  - intros [-> Hx]. now rewrite (split_at_first _ _ _ _ Hx), split_zero.
Qed.

Lemma split_twice_pair sep s x y :
  split sep s 2 = [x; y]
  <-> s = x +:+ String sep y /\ has_char sep x = false /\ has_char sep y = false.
Proof.
  split.
  - destruct (first_separator sep s) as [Hno|(a & b & -> & Ha)].
    + rewrite (split_absent _ _ _ Hno). discriminate.
    + rewrite (split_at_first _ _ _ _ Ha).
      destruct (first_separator sep b) as [Hb|(c & d & -> & Hc)].
      * rewrite (split_absent _ _ _ Hb). intros [= <- <-]. auto.
      * rewrite (split_at_first _ _ _ _ Hc), split_zero. discriminate.
  - intros (-> & Hx & Hy).
    now rewrite (split_at_first _ _ _ _ Hx), (split_absent _ _ _ Hy).
Qed.

Lemma basename_after_slash dir file :
  has_char "/" file = false ->
  basename (dir +:+ String "/" file) = file.
Proof.
  intros Hfile. induction dir as [|x dir IH].
  - change (EmptyString +:+ String "/" file) with (String "/"%char file).
    cbn [basename]. now rewrite Hfile.
  - change (String x dir +:+ String "/" file)
      with (String x (dir +:+ String "/"%char file)).
    cbn [basename].
    rewrite has_char_app, has_char_cons, (Ascii.eqb_refl "/").
    cbn [orb]. rewrite orb_true_r. exact IH.
Qed.
End MigrationStrings.

Section MigrationScript.
Import Migration MigrationNotions.
Variable int : string -> option Z.
Variable resolve : string -> string.

Lemma from_filename_not_abort filepath : from_filename int filepath <> Abort.
Proof.
  unfold from_filename.
  destruct (split "." (basename filepath) 2) as [|x [|y [|? ?]]]; try discriminate.
  destruct (split "_" x 1) as [|a [|b [|? ?]]]; try discriminate.
  destruct (int a); discriminate.
Qed.

Lemma from_filename_of_parts filepath numstr stem_name ext n :
  basename filepath = (numstr +:+ String "_" stem_name) +:+ String "." ext ->
  has_char "_" numstr = false ->
  has_char "." (numstr +:+ String "_" stem_name) = false ->
  has_char "." ext = false ->
  int numstr = Some n ->
  from_filename int filepath
  = Returned {| number := n; name := stem_name; path := filepath |}.
Proof.
  intros Hbase Hnum Hstem Hext Hint. unfold from_filename. rewrite Hbase.
  rewrite (proj2 (split_twice_pair "." _ _ _) (conj eq_refl (conj Hstem Hext))).
  rewrite (proj2 (split_once_pair "_" _ _ _) (conj eq_refl Hnum)).
  now rewrite Hint.
Qed.

(** X16.  [from_filename] returns a migration exactly when the base name of
    the path has one dot, the part before the dot has an underscore, and
    [int] accepts what stands before the first underscore; the number is
    what [int] reads there, the name is everything between that underscore
    and the dot, and the path is the path given.  In every other case it
    raises [ValueError]. *)
Theorem from_filename_returns filepath m :
  (from_filename int filepath = Returned m
   <-> exists numstr ext,
         basename filepath = (numstr +:+ String "_" (name m)) +:+ String "." ext
         /\ has_char "_" numstr = false
         /\ has_char "." (numstr +:+ String "_" (name m)) = false
         /\ has_char "." ext = false
         /\ int numstr = Some (number m)
         /\ path m = filepath)
  /\ (from_filename int filepath = ValueError
      \/ exists m', from_filename int filepath = Returned m').
Proof.
  split.
  - split.
    + unfold from_filename.
      destruct (split "." (basename filepath) 2) as [|x [|y [|? ?]]] eqn:Hdot;
        try discriminate.
      apply split_twice_pair in Hdot as (Hbase & Hx & Hy).
      destruct (split "_" x 1) as [|a [|b [|? ?]]] eqn:Hus; try discriminate.
      apply split_once_pair in Hus as (-> & Ha).
      destruct (int a) as [n|] eqn:Hint; [|discriminate].
      intros [= <-]. cbn [name number path]. exists a, y. auto 10.
    + intros (numstr & ext & Hbase & Hnum & Hstem & Hext & Hint & Hpath).
      rewrite (from_filename_of_parts _ _ _ _ _ Hbase Hnum Hstem Hext Hint).
      destruct m as [n nm p]. cbn in *. now subst.
  - destruct (from_filename int filepath) as [m'| |] eqn:Hf; [eauto| |auto].
    now apply from_filename_not_abort in Hf.
Qed.

Lemma not_digit_zeros c k : Ascii.eqb c "0" = false -> has_char c (zeros k) = false.
Proof.
  intros Hc. induction k as [|k IH]; [reflexivity|].
  cbn [zeros]. now rewrite has_char_cons, Hc, IH.
Qed.

Lemma not_digit_decimal c d :
  is_digit c = false -> has_char c (NilEmpty.string_of_uint d) = false.
Proof.
  unfold is_digit. cbn [list_ascii_of_string existsb].
  intros Hc. repeat (apply orb_false_iff in Hc as [? Hc]).
  induction d as [|d IH|d IH|d IH|d IH|d IH|d IH|d IH|d IH|d IH|d IH];
    cbn [NilEmpty.string_of_uint]; [reflexivity|..];
    rewrite has_char_cons, IH, orb_false_r; assumption.
Qed.

Lemma not_digit_format04 c n :
  is_digit c = false -> Ascii.eqb c "-" = false ->
  has_char c (format04 n) = false.
Proof.
  intros Hc Hminus. unfold format04.
  assert (H0 : Ascii.eqb c "0" = false).
  { unfold is_digit in Hc. cbn [list_ascii_of_string existsb] in Hc.
    now apply orb_false_iff in Hc as [? _]. }
  destruct (n <? 0).
  - rewrite has_char_cons, Hminus, has_char_app.
    now rewrite not_digit_zeros, not_digit_decimal.
  - rewrite has_char_app. now rewrite not_digit_zeros, not_digit_decimal.
Qed.

(** X17.  Round trip: the file a migration is stored in, its full name followed
    by a dot and an extension in any directory, is read back as that
    migration, as long as the name and the extension hold no dot and no
    slash and [int] reads the padded number back. *)
Theorem from_filename_of_full_name m dir ext :
  has_char "." (name m) = false ->
  has_char "/" (name m) = false ->
  has_char "." ext = false ->
  has_char "/" ext = false ->
  int (format04 (number m)) = Some (number m) ->
  from_filename int (dir +:+ String "/" (full_name m +:+ String "." ext))
  = Returned {| number := number m;
                name := name m;
                path := dir +:+ String "/" (full_name m +:+ String "." ext) |}.
Proof.
  intros Hdot Hslash Hedot Heslash Hint.
  apply from_filename_of_parts with (numstr := format04 (number m)) (ext := ext);
    try assumption.
  - rewrite basename_after_slash; [reflexivity|].
    unfold full_name. rewrite !has_char_app, !has_char_cons.
    rewrite (not_digit_format04 "/") by reflexivity.
    rewrite Hslash, Heslash. reflexivity.
  - now apply not_digit_format04.
  - rewrite has_char_app, has_char_cons, Hdot.
    now rewrite (not_digit_format04 ".") by reflexivity.
Qed.
End MigrationScript.

Section MigrationSearch.
Import Migration MigrationNotions.
Variable int : string -> option Z.
Variable resolve : string -> string.

Lemma scan_returned matches : forall highest found r,
  scan int resolve matches highest found = Returned r ->
  (r = found
   /\ forall q m, In q matches ->
        from_filename int (resolve q) = Returned m -> number m <= highest)
  \/ exists before p later f,
       matches = before ++ p :: later
       /\ from_filename int (resolve p) = Returned f
       /\ r = Some f
       /\ highest < number f
       /\ (forall q m, In q before ->
             from_filename int (resolve q) = Returned m -> number m < number f)
       /\ (forall q m, In q later ->
             from_filename int (resolve q) = Returned m -> number m <= number f).
Proof.
  induction matches as [|x rest IH]; intros highest found r Hscan.
  - injection Hscan as <-. left. split; [reflexivity|]. intros q m [].
  - cbn [scan] in Hscan.
    destruct (from_filename int (resolve x)) as [meta| |] eqn:Hx; try discriminate.
    destruct (Z.ltb_spec highest (number meta)) as [Hlt|Hge].
    + apply IH in Hscan as [[-> Hall]|(b & p & l & f & -> & Hp & -> & Hf & Hb & Hl)].
      * right. exists [], x, rest, meta. repeat split; auto.
        intros q m [].
      * right. exists (x :: b), p, l, f. repeat split; auto; [lia|].
        intros q m [<-|Hq] Hm; [|eauto].
        rewrite Hx in Hm. injection Hm as <-. lia.
    + apply IH in Hscan as [[-> Hall]|(b & p & l & f & -> & Hp & -> & Hf & Hb & Hl)].
      * left. split; [reflexivity|].
        intros q m [<-|Hq] Hm; [|eauto].
        rewrite Hx in Hm. injection Hm as <-. lia.
      * right. exists (x :: b), p, l, f. repeat split; auto.
        intros q m [<-|Hq] Hm; [|eauto].
        rewrite Hx in Hm. injection Hm as <-. lia.
Qed.

Lemma scan_low matches : forall highest found,
  (forall q, In q matches ->
     exists m, from_filename int (resolve q) = Returned m /\ number m <= highest) ->
  scan int resolve matches highest found = Returned found.
Proof.
  induction matches as [|x rest IH]; intros highest found Hall; [reflexivity|].
  cbn [scan]. destruct (Hall x (or_introl eq_refl)) as (m & -> & Hm).
  destruct (Z.ltb_spec highest (number m)); [lia|].
  apply IH. intros q Hq. apply Hall. now right.
Qed.

Lemma scan_outcome matches : forall highest found,
  scan int resolve matches highest found <> Abort
  /\ (scan int resolve matches highest found = ValueError
      <-> exists q, In q matches /\ from_filename int (resolve q) = ValueError).
Proof.
  induction matches as [|x rest IH]; intros highest found.
  - split; [discriminate|]. split; [discriminate|]. intros (q & [] & _).
  - cbn [scan].
    destruct (from_filename int (resolve x)) as [meta| |] eqn:Hx.
    + assert (Hrest : forall h f',
                scan int resolve rest h f' <> Abort
                /\ (scan int resolve rest h f' = ValueError
                    <-> exists q, In q (x :: rest)
                                  /\ from_filename int (resolve q) = ValueError)).
      { intros h f'. destruct (IH h f') as [Hna Hiff]. split; [exact Hna|].
        rewrite Hiff. split.
        - intros (q & Hq & Hv). exists q. split; [now right|exact Hv].
        - intros (q & [<-|Hq] & Hv); [congruence|eauto]. }
      destruct (highest <? number meta); apply Hrest.
    + now apply from_filename_not_abort in Hx.
    + split; [discriminate|]. split; [|reflexivity].
      intros _. exists x. split; [now left|exact Hx].
Qed.

(** X18.  The head migration returned is the first file with the greatest
    number:
    its number is positive, no file has a greater one, every file before it
    has a smaller one, and the one line echoed names it. *)
Theorem highest_migration_is_the_maximum matches echoed f :
  find_highest_migration int resolve matches = (echoed, Returned f) ->
  echoed = ["> Current head migration is " +:+ full_name f]
  /\ 0 < number f
  /\ exists before p later,
       matches = before ++ p :: later
       /\ from_filename int (resolve p) = Returned f
       /\ (forall q m, In q before ->
             from_filename int (resolve q) = Returned m -> number m < number f)
       /\ (forall q m, In q later ->
             from_filename int (resolve q) = Returned m -> number m <= number f).
Proof.
  unfold find_highest_migration.
  destruct (scan int resolve matches 0 None) as [[found|]| |] eqn:Hscan;
    try discriminate.
  intros [= <- <-]. split; [reflexivity|].
  apply scan_returned in Hscan as [[Hnone _]|(b & p & l & f & -> & Hp & Hf & Hpos & Hb & Hl)].
  - discriminate Hnone.
  - injection Hf as ->. split; [exact Hpos|]. exists b, p, l. auto.
Qed.

(** X19.  No head is found, and the script aborts, exactly when every file parses
    and none has a positive number, an empty directory included; it raises
    [ValueError] exactly when some file does not parse. *)
Theorem no_head_migration matches :
  (snd (find_highest_migration int resolve matches) = Abort
   <-> forall q, In q matches ->
         exists m, from_filename int (resolve q) = Returned m /\ number m <= 0)
  /\ (snd (find_highest_migration int resolve matches) = ValueError
      <-> exists q, In q matches /\ from_filename int (resolve q) = ValueError).
Proof.
  unfold find_highest_migration.
  destruct (scan_outcome matches 0 None) as [Hna Hve].
  destruct (scan int resolve matches 0 None) as [[found|]| |] eqn:Hscan;
    cbn [snd].
  - split.
    + split; [discriminate|]. intros Hall.
      rewrite (scan_low matches 0 None Hall) in Hscan. discriminate.
    + rewrite <- Hve. split; discriminate.
  - split.
    + split; [intros _|reflexivity]. intros q Hq.
      apply scan_returned in Hscan as [[_ Hall]|(b & p & l & f & _ & _ & Hf & _)];
        [|discriminate Hf].
      destruct (from_filename int (resolve q)) as [m| |] eqn:Hm.
      * exists m. split; [reflexivity|]. now apply (Hall q).
      * now apply from_filename_not_abort in Hm.
      * assert (Hsome : exists q, In q matches
                          /\ from_filename int (resolve q) = ValueError) by eauto.
        apply Hve in Hsome. discriminate.
    + rewrite <- Hve. split; discriminate.
  - contradiction.
  - split.
    + split; [discriminate|]. intros Hall.
      rewrite (scan_low matches 0 None Hall) in Hscan. discriminate.
    + rewrite <- Hve. split; reflexivity.
Qed.

(** X20.  [find_migration] reads a migration only from a unique match: it aborts
    exactly when the glob matched no file or more than one, echoing every
    match in the second case, and otherwise echoes nothing and reads the
    one match. *)
Theorem find_migration_needs_a_unique_match matches migration :
  (snd (find_migration int resolve matches migration) = Abort
   <-> length matches <> 1%nat)
  /\ (forall p, matches = [p] ->
        find_migration int resolve matches migration
        = ([], from_filename int (resolve p)))
  /\ (matches = [] ->
      fst (find_migration int resolve matches migration)
      = ["Could not find migration matching " +:+ migration])
  /\ ((1 < length matches)%nat ->
      fst (find_migration int resolve matches migration)
      = ["Found multiple migrations matching " +:+ migration]
          ++ map (fun m => "- " +:+ m) matches
          ++ ["Try again with a more specific pattern"%string]).
Proof.
  unfold find_migration.
  destruct matches as [|p [|p' rest]]; cbn [length Nat.ltb Nat.leb fst snd].
  - repeat split; intros; try discriminate; try lia.
  - split; [|split; [|split]].
    + split; [|lia]. intros Ha. now apply from_filename_not_abort in Ha.
    + intros q [= <-]. reflexivity.
    + discriminate.
    + lia.
  - repeat split; intros; try discriminate; try lia.
Qed.
End MigrationSearch.

Section MigrationRename.
Import Migration MigrationNotions.

Lemma prefix_of_app old rest : String.prefix old (old +:+ rest) = true.
Proof.
  induction old as [|c old IH]; [destruct rest; reflexivity|].
  change (String c old +:+ rest) with (String c (old +:+ rest)).
  cbn [String.prefix]. destruct (ascii_dec c c); [exact IH|contradiction].
Qed.

Lemma prefix_other_head c old x s :
  Ascii.eqb c x = false -> String.prefix (String c old) (String x s) = false.
Proof.
  intros Hne. cbn [String.prefix].
  destruct (ascii_dec c x) as [->|_]; [|reflexivity].
  now rewrite Ascii.eqb_refl in Hne.
Qed.

Lemma replace_from_skip old new passed : forall s,
  replace_from old new (passed +:+ s) (String.length passed)
  = replace_from old new s 0.
Proof.
  induction passed as [|c passed IH]; intros s; [reflexivity|].
  change (String c passed +:+ s) with (String c (passed +:+ s)).
  cbn [replace_from String.length]. apply IH.
Qed.

Lemma replace_from_hit c old new rest :
  replace_from (String c old) new (String c old +:+ rest) 0
  = new +:+ replace_from (String c old) new rest 0.
Proof.
  pose proof (prefix_of_app (String c old) rest) as Hp.
  change (String c old +:+ rest) with (String c (old +:+ rest)) in *.
  cbn [replace_from]. rewrite Hp. f_equal.
  replace (String.length (String c old) - 1)%nat with (String.length old)
    by (cbn [String.length]; lia).
  apply replace_from_skip.
Qed.

Lemma replace_from_zeros c old new k s :
  Ascii.eqb c "0" = false ->
  replace_from (String c old) new (zeros k +:+ s) 0
  = zeros k +:+ replace_from (String c old) new s 0.
Proof.
  intros Hc. induction k as [|k IH]; [reflexivity|].
  change (zeros (S k) +:+ s) with (String "0" (zeros k +:+ s)).
  cbn [replace_from]. rewrite (prefix_other_head _ _ _ _ Hc).
  now rewrite IH.
Qed.

Lemma replace_from_absent old new s :
  occurs old s = false -> replace_from old new s 0 = s.
Proof.
  induction s as [|x s IH]; [reflexivity|].
  cbn [occurs replace_from]. intros Hno.
  apply orb_false_iff in Hno as [-> Hs]. now rewrite (IH Hs).
Qed.

(** The decimal digits of a positive number start with a digit other
    than zero. *)
Lemma positive_digits p :
  exists c rest,
    NilEmpty.string_of_uint (Pos.to_uint p) = String c rest
    /\ Ascii.eqb c "0" = false.
Proof.
  assert (Hnorm : Pos.to_uint p = Decimal.unorm (Pos.to_uint p)).
  { pose proof (DecimalPos.Unsigned.to_of (Pos.to_uint p)) as Hto.
    rewrite DecimalPos.Unsigned.of_to in Hto. exact Hto. }
  assert (Hhead : Pos.to_uint p = Decimal.nzhead (Pos.to_uint p)).
  { rewrite Hnorm at 1. apply DecimalFacts.unorm_nzhead.
    intros Hnil. apply (DecimalPos.Unsigned.to_uint_nonzero p).
    rewrite Hnorm. now apply DecimalFacts.unorm_0. }
  pose proof (DecimalFacts.nzhead_nonzero (Pos.to_uint p)) as Hnz.
  pose proof (DecimalPos.Unsigned.to_uint_nonnil p) as Hnn.
  rewrite <- Hhead in Hnz.
  destruct (Pos.to_uint p) as [|d|d|d|d|d|d|d|d|d|d];
    [contradiction|exfalso; now apply (Hnz d)|..];
    cbn [NilEmpty.string_of_uint]; eexists _, _; split; reflexivity.
Qed.

Lemma str_positive p : str (Z.pos p) = NilEmpty.string_of_uint (Pos.to_uint p).
Proof. reflexivity. Qed.

Lemma format04_positive p :
  format04 (Z.pos p) = zeros (4 - String.length (str (Z.pos p))) +:+ str (Z.pos p).
Proof. reflexivity. Qed.

Lemma append_assoc (a b c : string) : (a +:+ b) +:+ c = a +:+ (b +:+ c).
Proof.
  induction a as [|x a IH]; [reflexivity|].
  change (String x a +:+ b) with (String x (a +:+ b)).
  change (String x (a +:+ b) +:+ c) with (String x ((a +:+ b) +:+ c)).
  now rewrite IH.
Qed.

Lemma replace_padded c old new k rest :
  Ascii.eqb c "0" = false ->
  replace (String c old) new (zeros k +:+ String c old +:+ rest)
  = zeros k +:+ new +:+ replace (String c old) new rest.
Proof.
  intros Hc. unfold replace.
  rewrite (replace_from_zeros _ _ _ _ _ Hc).
  now rewrite replace_from_hit.
Qed.

(** X21.  The new name keeps the zeros the old number was padded with and
    puts the head's successor in place of the old number's digits; the
    digits are replaced in the rest of the name as well, wherever they
    occur. *)
Theorem new_name_replaces_the_digits migration_meta current_head :
  0 < number migration_meta ->
  new_name migration_meta current_head
  = zeros (4 - String.length (str (number migration_meta)))
    +:+ str (number current_head + 1)
    +:+ replace (str (number migration_meta)) (str (number current_head + 1))
          (String "_" (name migration_meta)).
Proof.
  intros Hpos. unfold new_name, full_name.
  destruct (number migration_meta) as [|p|p] eqn:Hn; try lia.
  rewrite format04_positive, str_positive.
  destruct (positive_digits p) as (c & rest & Hdigits & Hc).
  rewrite Hdigits, append_assoc.
  apply (replace_padded _ _ _ _ _ Hc).
Qed.

(** X22.  For a migration with a positive number and a head whose number is
    not negative: when the old number's digits do not occur in the rest of
    the name and the head's successor is padded with as many zeros as the
    old number, the new name is the full name of the migration renumbered
    to the head's successor. *)
Theorem new_name_is_the_renumbered_full_name migration_meta current_head :
  0 < number migration_meta ->
  0 <= number current_head ->
  occurs (str (number migration_meta)) (String "_" (name migration_meta)) = false ->
  (4 - String.length (str (number migration_meta))
   = 4 - String.length (str (number current_head + 1)))%nat ->
  new_name migration_meta current_head
  = full_name {| number := number current_head + 1;
                 name := name migration_meta;
                 path := path migration_meta |}.
Proof.
  intros Hpos Hhead Habsent Hpad. unfold new_name, full_name. cbn [number name].
  destruct (number migration_meta) as [|p|p] eqn:Hn; try lia.
  destruct (number current_head + 1) as [|h|h] eqn:Hh; try lia.
  rewrite !format04_positive, <- Hpad, !append_assoc.
  rewrite str_positive in Habsent |- *.
  destruct (positive_digits p) as (c & rest & Hdigits & Hc).
  rewrite Hdigits in Habsent |- *.
  rewrite (replace_padded _ _ _ _ _ Hc). do 2 f_equal.
  unfold replace. now rewrite (replace_from_absent _ _ _ Habsent).
Qed.
End MigrationRename.

Lemma from_filename_of_full_name_witness :
  Migration.has_char "." (Migration.name MigrationNotions.add_index) = false
  /\ Migration.has_char "/" (Migration.name MigrationNotions.add_index) = false
  /\ Migration.int_of_digits
       (Migration.format04 (Migration.number MigrationNotions.add_index))
     = Some (Migration.number MigrationNotions.add_index)
  /\ Migration.from_filename Migration.int_of_digits
       ("/sentry/migrations"
        +:+ String "/" (Migration.full_name MigrationNotions.add_index +:+ String "." "py"))
     = Migration.Returned MigrationNotions.add_index.
Proof.
  split; [reflexivity|]. split; [reflexivity|]. split; [reflexivity|].
  rewrite (from_filename_of_full_name Migration.int_of_digits
             MigrationNotions.add_index "/sentry/migrations" "py"
             eq_refl eq_refl eq_refl eq_refl eq_refl).
  reflexivity.
Defined.

Lemma highest_migration_is_the_maximum_witness :
  Migration.find_highest_migration Migration.int_of_digits id
    MigrationNotions.migration_files
  = (["> Current head migration is 0003_add_index"%string],
     Migration.Returned
       {| Migration.number := 3; Migration.name := "add_index";
          Migration.path := "/sentry/migrations/0003_add_index.py" |})
  /\ 0 < 3.
Proof.
  assert (H : Migration.find_highest_migration Migration.int_of_digits id
                MigrationNotions.migration_files
              = (["> Current head migration is 0003_add_index"%string],
                 Migration.Returned
                   {| Migration.number := 3; Migration.name := "add_index";
                      Migration.path := "/sentry/migrations/0003_add_index.py" |}))
    by reflexivity.
  split; [exact H|].
  exact (proj1 (proj2 (highest_migration_is_the_maximum Migration.int_of_digits id
                         MigrationNotions.migration_files _ _ H))).
Defined.

Lemma new_name_replaces_the_digits_witness :
  0 < Migration.number MigrationNotions.add_12_columns
  /\ Migration.new_name MigrationNotions.add_12_columns MigrationNotions.head_499
     = "00500_add_500_columns"%string.
Proof.
  assert (H : 0 < Migration.number MigrationNotions.add_12_columns) by (simpl; lia).
  split; [exact H|].
  rewrite (new_name_replaces_the_digits MigrationNotions.add_12_columns
             MigrationNotions.head_499 H).
  reflexivity.
Defined.

Lemma new_name_is_the_renumbered_full_name_witness :
  0 < Migration.number MigrationNotions.add_index
  /\ 0 <= Migration.number MigrationNotions.head_41
  /\ MigrationNotions.occurs
       (Migration.str (Migration.number MigrationNotions.add_index))
       (String "_" (Migration.name MigrationNotions.add_index)) = false
  /\ Migration.new_name MigrationNotions.add_index MigrationNotions.head_41
     = "0042_add_index"%string.
Proof.
  assert (H1 : 0 < Migration.number MigrationNotions.add_index) by (simpl; lia).
  assert (H2 : 0 <= Migration.number MigrationNotions.head_41) by (simpl; lia).
  split; [exact H1|]. split; [exact H2|]. split; [reflexivity|].
  rewrite (new_name_is_the_renumbered_full_name MigrationNotions.add_index
             MigrationNotions.head_41 H1 H2 eq_refl eq_refl).
  reflexivity.
Defined.
